(** * github-actions-merger: the merge decision and the commit message

    A shallow embedding of [main.go].  Go strings are byte sequences and are
    modelled by [string] (a list of 8-bit [ascii]); Go's [int] is [Z]; an
    [error] is the text its [Error()] method returns, [None] standing for
    [nil].  The two regular expressions of the program are values of a small
    regular-expression syntax run by a backtracking matcher with Go's
    leftmost-first priorities, and the commit-body template is a syntax tree
    carrying the trim markers of its delimiters. *)

From Stdlib Require Import String Ascii List ZArith Bool Lia Arith.
From Stdlib Require Import Numbers.DecimalString.
Import ListNotations.

Open Scope list_scope.
Open Scope string_scope.

#[local] Arguments Ascii.eqb : simpl never.
#[local] Arguments String.eqb : simpl never.

(** ** Bytes and strings *)

(** The newline byte, written ["\n"] in the Go source. *)
Definition nl : ascii := "010"%char.

(** A string given by the decimal values of its bytes. *)
Definition bytes (l : list nat) : string :=
  fold_right (fun n s => String (ascii_of_nat n) s) "" l.

(** [strings.HasPrefix(s, p)]. *)
Fixpoint HasPrefix (s p : string) {struct p} : bool :=
  match p with
  | "" => true
  | String a p' =>
      match s with
      | "" => false
      | String b s' => Ascii.eqb a b && HasPrefix s' p'
      end
  end.

(** [s[n:]], for [n <= len(s)]. *)
Fixpoint drop (n : nat) (s : string) : string :=
  match n with
  | O => s
  | S n' => match s with "" => "" | String _ s' => drop n' s' end
  end.

(** [s[:n]], for [n <= len(s)]. *)
Fixpoint take (n : nat) (s : string) : string :=
  match n with
  | O => ""
  | S n' => match s with "" => "" | String c s' => String c (take n' s') end
  end.

Fixpoint rev (s : string) : string :=
  match s with
  | "" => ""
  | String c s' => rev s' ++ String c ""
  end.

(** The bytes of [s] all satisfy [p]. *)
Fixpoint all_bytes (p : ascii -> bool) (s : string) : bool :=
  match s with
  | "" => true
  | String c s' => p c && all_bytes p s'
  end.

(** [fmt.Sprintf("%d", n)] and [strconv.Itoa(n)]. *)
Definition Itoa (n : Z) : string :=
  NilZero.string_of_int (Z.to_int n).

(** ** Errors *)

(** A Go [error], by its message; [None] is [nil]. *)
Definition error := option string.

(** [fmt.Errorf(prefix + "%w", err)] for a non-nil [err]. *)
Definition wrap (prefix : string) (msg : string) : string := prefix ++ msg.

(** ** Inputs *)

Record env := {
  GithubToken : string;
  Owner : string;
  Repo : string;
  PRNumber : Z;
  Comment : string;
  MergeMethod : string;
  Mergers : list string;
  Actor : string;
  EnableAutoMerge : bool
}.

Definition mergeComment : string := "/merge".

(** ** The authorization gate *)

(** The loop [for _, m := range e.Mergers] of [validateEnv]: does it reach
    its [return nil]? *)
Fixpoint actor_in (actor : string) (mergers : list string) : bool :=
  match mergers with
  | [] => false
  | m :: rest => if String.eqb actor m then true else actor_in actor rest
  end.

Definition validateEnv (e : env) : error :=
  if negb (String.eqb (Comment e) mergeComment) then
    Some ("comment must be " ++ mergeComment ++ ", got " ++ Comment e)
  else if Nat.eqb (List.length (Mergers e)) 0 then
    None
  else if actor_in (Actor e) (Mergers e) then
    None
  else
    Some ("actor " ++ Actor e ++ " is not in mergers list").

(** The two failures of the gate, told apart by their messages. *)
Definition BadTrigger (comment : string) : error :=
  Some ("comment must be /merge, got " ++ comment).

Definition ActorNotAuthorized (actor : string) : error :=
  Some ("actor " ++ actor ++ " is not in mergers list").

(** ** Regular expressions

    The part of Go's [regexp] syntax the program uses: literals, a repeated
    character class ([x+], or [x+?] when lazy), one capturing group and
    concatenation.  Go matches runes, not bytes.  Every literal of the two
    expressions is ASCII and so is the class [[0-9]]; [.] consumes whole
    runes, an invalid byte counting as one, and no rune contains the newline
    byte, so that a run of [.] is a run of bytes other than newline that
    ends where the ASCII literal after it starts.  Matching on bytes thus
    gives the same matches. *)

Inductive greed := Greedy | NonGreedy.

Inductive regex :=
| Lit (l : string)
| Plus (cls : ascii -> bool) (g : greed)
| Group (r : regex)
| Cat (r1 r2 : regex).

Fixpoint NumSubexp (r : regex) : nat :=
  match r with
  | Lit _ | Plus _ _ => 0
  | Group r1 => S (NumSubexp r1)
  | Cat r1 r2 => NumSubexp r1 + NumSubexp r2
  end.

Section Matcher.
(** A backtracking matcher in continuation-passing style: the
    continuation receives the rest of the input and the text of the
    capturing group, and the first alternative that lets it succeed wins
    (leftmost-first, as Go's [regexp] promises). *)
Context {R : Type}.

Fixpoint plus (cls : ascii -> bool) (g : greed) (s : string)
    (k : string -> option R) : option R :=
  match s with
  | "" => None
  | String c s' =>
      if cls c then
        match g with
        | Greedy =>
            match plus cls g s' k with
            | Some x => Some x
            | None => k s'
            end
        | NonGreedy =>
            match k s' with
            | Some x => Some x
            | None => plus cls g s' k
            end
        end
      else None
  end.

Fixpoint run (r : regex) (s : string) (cap : string)
    (k : string -> string -> option R) : option R :=
  match r with
  | Lit l => if HasPrefix s l then k (drop (String.length l) s) cap else None
  | Plus cls g => plus cls g s (fun s' => k s' cap)
  | Group r1 =>
      run r1 s cap
        (fun s' _ => k s' (take (String.length s - String.length s') s))
  | Cat r1 r2 => run r1 s cap (fun s' cap' => run r2 s' cap' k)
  end.
End Matcher.

(** A match of [r] starting at the first byte of [s]: the matched text,
    followed by the text of the group when [r] has one. *)
Definition match_here (r : regex) (s : string) : option (list string) :=
  run r s ""
    (fun s' cap =>
       Some (take (String.length s - String.length s') s
               :: match NumSubexp r with O => [] | _ => [cap] end)).

(** [r.FindStringSubmatch(s)]: the leftmost match, [nil] when there is
    none. *)
Fixpoint FindStringSubmatch (r : regex) (s : string) : list string :=
  match match_here r s with
  | Some ss => ss
  | None =>
      match s with
      | "" => []
      | String _ s' => FindStringSubmatch r s'
      end
  end.

Definition isDigit (c : ascii) : bool :=
  (48 <=? nat_of_ascii c)%nat && (nat_of_ascii c <=? 57)%nat.

(** The class of [.] without the [s] flag: any byte but a newline. *)
Definition notNewline (c : ascii) : bool := negb (Ascii.eqb c nl).

Definition approveTail : string :=
  " approving review is required by reviewers with write access".

(** The shape of both expressions of the program: a literal, a captured
    repeated class, and a literal given by its first byte and the rest. *)
Definition shape (a : string) (c0 : ascii) (b' : string)
    (cls : ascii -> bool) (g : greed) : regex :=
  Cat (Lit a) (Cat (Group (Plus cls g)) (Lit (String c0 b'))).

Definition needApproveRegexp : regex :=
  Cat (Lit "At least ") (Cat (Group (Plus isDigit Greedy)) (Lit approveTail)).

Definition openFence : string := "```release-note" ++ String nl "".
Definition closeFence : string := String nl "```".

Definition releaseNoteRegexp : regex :=
  Cat (Lit openFence) (Cat (Group (Plus notNewline NonGreedy)) (Lit closeFence)).

(** ** The error classifier *)

Definition errMsg (err : error) : string :=
  match err with
  | None => "Succeeded!"
  | Some msg =>
      let ss := FindStringSubmatch needApproveRegexp msg in
      if Nat.eqb (List.length ss) 2 then
        "Need " ++ nth 1 ss "" ++ " approving review"
      else msg
  end.

(** ** [strings.TrimSpace]

    Go trims the runes for which [unicode.IsSpace] holds.  A leading (or
    trailing) rune decodes to one of them exactly when the string starts
    (or ends) with its UTF-8 encoding, so the trimming is written on the
    encodings. *)
Definition spaceRunes : list string :=
  map bytes
    [ [9]; [10]; [11]; [12]; [13]; [32];          (* \t \n \v \f \r ' ' *)
      [194; 133]; [194; 160];                     (* U+0085 U+00A0 *)
      [225; 154; 128];                            (* U+1680 *)
      [226; 128; 128]; [226; 128; 129]; [226; 128; 130]; [226; 128; 131];
      [226; 128; 132]; [226; 128; 133]; [226; 128; 134]; [226; 128; 135];
      [226; 128; 136]; [226; 128; 137]; [226; 128; 138]; (* U+2000-U+200A *)
      [226; 128; 168]; [226; 128; 169];           (* U+2028 U+2029 *)
      [226; 128; 175];                            (* U+202F *)
      [226; 129; 159];                            (* U+205F *)
      [227; 128; 128] ]%list.                     (* U+3000 *)

(** Remove one of [pats] from the front of [s]. *)
Fixpoint strip_one (pats : list string) (s : string) : option string :=
  match pats with
  | [] => None
  | p :: rest =>
      if HasPrefix s p then Some (drop (String.length p) s)
      else strip_one rest s
  end.

Fixpoint strip_all (pats : list string) (fuel : nat) (s : string) : string :=
  match fuel with
  | O => s
  | S fuel' =>
      match strip_one pats s with
      | Some s' => strip_all pats fuel' s'
      | None => s
      end
  end.

Definition TrimLeftSpace (s : string) : string :=
  strip_all spaceRunes (String.length s) s.

Definition TrimRightSpace (s : string) : string :=
  rev (strip_all (map rev spaceRunes) (String.length s) (rev s)).

Definition TrimSpace (s : string) : string :=
  TrimRightSpace (TrimLeftSpace s).

(** ** [strings.ReplaceAll(s, old, "")]

    Every non-overlapping occurrence of [old], found from left to right, is
    dropped; [skip] counts the bytes of the occurrence being dropped.  With
    an empty [old] Go inserts the (empty) replacement between the runes,
    which leaves [s] as it is. *)
Fixpoint remove_from (old : string) (skip : nat) (s : string) : string :=
  match s with
  | "" => ""
  | String c s' =>
      match skip with
      | S skip' => remove_from old skip' s'
      | O =>
          if HasPrefix s old then remove_from old (String.length old - 1) s'
          else String c (remove_from old 0 s')
      end
  end.

Definition ReplaceAllEmpty (s old : string) : string :=
  if String.eqb old "" then s else remove_from old 0 s.

(** ** Release-note extraction *)

Definition splitReleaseNote (body : string) : string * string :=
  let ss := FindStringSubmatch releaseNoteRegexp body in
  if negb (Nat.eqb (List.length ss) 2) then (body, "NONE")
  else
    let rn := TrimSpace (nth 1 ss "") in
    if negb (String.eqb rn "") then (ReplaceAllEmpty body (nth 0 ss ""), rn)
    else (body, "NONE").

(** ** Pull requests, as [go-github] hands them over

    Fields reached through the [Get...] accessors are pointers: [None] is
    the nil pointer, for which the accessor returns the zero value. *)
Module github.
Record Label := { Name : option string }.

Record PullRequest := {
  Number : option Z;
  Title : option string;
  Body : option string;
  Labels : list (option Label)
  }.

Definition GetName (l : option Label) : string :=
  match l with
  | Some {| Name := Some n |} => n
  | _ => ""
  end.

Definition GetNumber (pr : PullRequest) : Z :=
  match Number pr with Some n => n | None => 0%Z end.

Definition GetTitle (pr : PullRequest) : string :=
  match Title pr with Some t => t | None => "" end.

Definition GetBody (pr : PullRequest) : string :=
  match Body pr with Some b => b | None => "" end.
End github.

(** ** The commit message *)

Record commitBody := {
  Labels : list string;
  Message : string;
  ReleaseNote : string
}.

Definition newCommitBody (pr : github.PullRequest) : commitBody :=
  let labels := map github.GetName (github.Labels pr) in
  let '(description, releaseNote) := splitReleaseNote (github.GetBody pr) in
  {| Message := description; Labels := labels; ReleaseNote := releaseNote |}.

(** *** The template

    A text node records whether the delimiter before it ends with [-}}]
    ([lead]: its leading white space is dropped) and whether the delimiter
    after it starts with [{{-] ([trail]: its trailing white space is
    dropped), as [text/template]'s lexer does. *)

Definition isTplSpace (c : ascii) : bool :=
  existsb (Ascii.eqb c) [" "%char; "009"%char; "013"%char; nl]%list.

Fixpoint trim_lead (s : string) : string :=
  match s with
  | "" => ""
  | String c s' => if isTplSpace c then trim_lead s' else s
  end.

Definition trim_trail (s : string) : string := rev (trim_lead (rev s)).

Definition lexed (lead : bool) (s : string) (trail : bool) : string :=
  let s1 := if lead then trim_lead s else s in
  if trail then trim_trail s1 else s1.

(** The pipelines tested by [{{if}}]. *)
Inductive cond := IfMessage | IfLabels.

(** A string, and a slice, are true when not empty. *)
Definition truth (c : cond) (b : commitBody) : bool :=
  match c with
  | IfMessage => negb (String.eqb (Message b) "")
  | IfLabels => negb (Nat.eqb (List.length (Labels b)) 0)
  end.

(** Inside [{{range .Labels}}] the dot is one label. *)
Inductive item :=
| IText (lead : bool) (s : string) (trail : bool)
| IDot.

#[warnings="-register-all"]
Inductive node :=
| Text (lead : bool) (s : string) (trail : bool)
| Field (f : commitBody -> string)
| If (c : cond) (body : list node)
| RangeLabels (body : list item).

(** The template, node by node.  Its source is the raw string
<<
{{- if .Message }}
{{ .Message }}
{{- end }}
{{if .Labels}}
Labels:
{{- range .Labels }}
  * {{ . }}
{{- end -}}
{{- end -}}
>>
which starts and ends with a newline, followed by a newline, a newline,
the opening fence, a newline, an asterisk and a space, the action
[{{ .ReleaseNote }}], a newline and three backquotes.  Every text between
two delimiters is a [Text] (or [IText]) node below, a single newline for
most of them. *)
Definition bodyTpl : list node :=
  [ Text false (String nl "") true;
    If IfMessage
      [ Text false (String nl "") false;
        Field Message;
        Text false (String nl "") true ];
    Text false (String nl "") false;
    If IfLabels
      [ Text false (String nl "Labels:" ++ String nl "") true;
        RangeLabels
          [ IText false (String nl "  * ") false;
            IDot;
            IText false (String nl "") true ];
        Text true (String nl "") true ];
    Text true
      (String nl ""
         ++ (String nl (String nl "```release-note") ++ String nl "* "))
      false;
    Field ReleaseNote;
    Text false (String nl "```") false ]%list.

Definition exec_item (label : string) (i : item) : string :=
  match i with
  | IText lead s trail => lexed lead s trail
  | IDot => label
  end.

Fixpoint exec_node (b : commitBody) (n : node) : string :=
  match n with
  | Text lead s trail => lexed lead s trail
  | Field f => f b
  | If c body =>
      if truth c b then
        (fix seq (l : list node) : string :=
           match l with
           | [] => ""
           | x :: l' => exec_node b x ++ seq l'
           end) body
      else ""
  | RangeLabels body =>
      String.concat ""
        (map (fun label => String.concat "" (map (exec_item label) body))
           (Labels b))
  end.

(** [tpl.Execute(o, body)] followed by [o.String()]. *)
Definition Execute (tpl : list node) (b : commitBody) : string :=
  String.concat "" (map (exec_node b) tpl).

Definition generateCommitSubject (pr : github.PullRequest) : string :=
  github.GetTitle pr ++ " (#" ++ Itoa (github.GetNumber pr) ++ ")".

(** The template of this program has no action that can fail, so the error
    of [generateCommitBody] is always nil. *)
Definition generateCommitBody (pr : github.PullRequest) : string * error :=
  let body := newCommitBody pr in
  (Execute bodyTpl body, None).

(** ** The orchestrator

    What lies outside the program (the loading of the inputs, the GitHub
    API and the [gh] command) answers through a record of functions; the
    calls made and the lines printed are logged in order.  The ten-minute
    context passed to the calls is not modelled. *)

Inductive event :=
| Printed (text : string)
| GotPullRequest (owner repo : string) (number : Z)
| MergeCalled (owner repo : string) (number : Z)
    (commitMsg title method : string)
| GhRun (args : list string)
| CommentPosted (owner repo : string) (number : Z) (msg : string).

Record collaborators := {
  (* envconfig.Process(prefix, &e) *)
  Process : string -> env + string;
  (* gh.client.PullRequests.Get *)
  PullRequests_Get : string -> string -> Z -> github.PullRequest + string;
  (* gh.client.PullRequests.Merge *)
  PullRequests_Merge :
    string -> string -> Z -> string -> string -> string -> error;
  (* exec.Command("gh", args...).Run() *)
  Command_gh_Run : list string -> error;
  (* gh.client.Issues.CreateComment *)
  Issues_CreateComment : string -> string -> Z -> string -> error
}.

(** Computations that append to the log. *)
Definition M (A : Type) : Type := list event -> A * list event.

Definition ret {A} (a : A) : M A := fun log => (a, log).

Definition bind {A B} (c : M A) (k : A -> M B) : M B :=
  fun log => let '(a, log') := c log in k a log'.

Definition emit (e : event) : M unit := fun log => (tt, (log ++ [e])%list).

Notation "x <- c ;; k" := (bind c (fun x => k))
  (at level 61, c at next level, right associativity).
Notation "c ;;; k" := (bind c (fun _ => k))
  (at level 61, right associativity).

(** How [main] ends: it returns, or it panics with a message. *)
Inductive outcome := Returned | Panicked (msg : string).

Section Orchestrator.
Variable w : collaborators.

Definition sendMsg (owner repo : string) (prNumber : Z) (msg : string)
    : M error :=
  emit (CommentPosted owner repo prNumber msg) ;;;
  match Issues_CreateComment w owner repo prNumber msg with
  | Some err => ret (Some (wrap "failed to send message: " err))
  | None => ret None
  end.

Definition merge (owner repo : string) (prNumber : Z)
    (mergeMethod : string) (enableAutoMerge : bool) : M error :=
  emit (GotPullRequest owner repo prNumber) ;;;
  match PullRequests_Get w owner repo prNumber with
  | inr err => ret (Some (wrap "failed to get pull request: " err))
  | inl pr =>
      match generateCommitBody pr with
      | (_, Some err) => ret (Some (wrap "failed to generate template: " err))
      | (commitMsg, None) =>
          err <-
            (if enableAutoMerge then
               let args :=
                 [ "pr"; "merge"; Itoa prNumber; ("--" ++ mergeMethod)%string;
                   "--auto"; "--subject"; generateCommitSubject pr;
                   "--body"; commitMsg; "--repo";
                   (owner ++ "/" ++ repo)%string ]%list
               in
               emit (GhRun args) ;;; ret (Command_gh_Run w args)
             else
               emit (MergeCalled owner repo prNumber commitMsg
                       (generateCommitSubject pr) mergeMethod) ;;;
               ret (PullRequests_Merge w owner repo prNumber commitMsg
                      (generateCommitSubject pr) mergeMethod)) ;;
          match err with
          | Some err => ret (Some (wrap "failed to merge pull request: " err))
          | None => ret None
          end
      end
  end.

Definition main : M outcome :=
  match Process w "INPUT" with
  | inr err =>
      emit (Printed ("failed to load inputs: " ++ err ++ String nl "")) ;;;
      ret (Panicked err)
  | inl e =>
      match validateEnv e with
      | Some err =>
          serr <- sendMsg (Owner e) (Repo e) (PRNumber e)
                    (errMsg (Some err)) ;;
          match serr with
          | Some serr =>
              emit (Printed ("failed to send message: " ++ serr
                               ++ " original: " ++ err)) ;;;
              ret (Panicked serr)
          | None =>
              emit (Printed ("failed to validate env: " ++ err)) ;;;
              ret (Panicked err)
          end
      | None =>
          merr <- merge (Owner e) (Repo e) (PRNumber e) (MergeMethod e)
                    (EnableAutoMerge e) ;;
          match merr with
          | Some err =>
              serr <- sendMsg (Owner e) (Repo e) (PRNumber e)
                        (errMsg (Some err)) ;;
              match serr with
              | Some serr =>
                  emit (Printed ("failed to send message: " ++ serr
                                   ++ " original: " ++ err)) ;;;
                  ret (Panicked serr)
              | None =>
                  emit (Printed ("failed to merge: " ++ err)) ;;;
                  ret (Panicked err)
              end
          | None =>
              let successMsg :=
                "Merged PR #" ++ Itoa (PRNumber e) ++ " successfully!" in
              serr <- sendMsg (Owner e) (Repo e) (PRNumber e) successMsg ;;
              match serr with
              | Some err =>
                  emit (Printed ("failed to send message: " ++ err)) ;;;
                  ret (Panicked err)
              | None =>
                  emit (Printed successMsg) ;;;
                  ret Returned
              end
          end
      end
  end.
End Orchestrator.

(** The comments posted in a log. *)
Fixpoint comments (log : list event) : list string :=
  match log with
  | [] => []
  | CommentPosted _ _ _ msg :: rest => msg :: comments rest
  | _ :: rest => comments rest
  end.

(** ** Notions used in the statements *)

(** A release-note block with the one-line content [cap] starts at the
    first byte of [s]. *)
Definition block_here (s cap : string) : Prop :=
  cap <> "" /\ all_bytes notNewline cap = true /\
  exists rest, s = openFence ++ cap ++ closeFence ++ rest.

(** The approval message for [n] reviews starts at the first byte of [s]. *)
Definition approval_here (s n : string) : Prop :=
  n <> "" /\ all_bytes isDigit n = true /\
  exists rest, s = "At least " ++ n ++ approveTail ++ rest.

(** Nothing satisfying [P] starts inside [pre] when [pre] is followed by
    [s]. *)
Definition none_before (P : string -> Prop) (pre s : string) : Prop :=
  forall p1 p2, pre = p1 ++ p2 -> p2 <> "" -> ~ P (p2 ++ s).

(** [p] occurs in [s]. *)
Definition occurs (p s : string) : Prop := exists a b, s = a ++ p ++ b.

(** The removal of the first occurrence of [old] only, as the
    specification words it. *)
Fixpoint remove_first (old s : string) : string :=
  match s with
  | "" => ""
  | String c s' =>
      if HasPrefix s old then drop (String.length old) s
      else String c (remove_first old s')
  end.

(** The labels section and the fenced block a commit body is made of. *)
Definition label_line (name : string) : string := "  * " ++ name.

Definition fence_block (releaseNote : string) : string :=
  "```release-note" ++ String nl ("* " ++ releaseNote) ++ String nl "```".

(** Some release-note block, or some approval message, starts at the first
    byte of [s]. *)
Definition a_block (s : string) : Prop := exists cap, block_here s cap.
Definition an_approval (s : string) : Prop := exists n, approval_here s n.

(** [r] matches at no position inside [pre] when [pre] is followed by
    [s]. *)
Fixpoint no_match_in (r : regex) (pre s : string) : bool :=
  match pre with
  | "" => true
  | String _ pre' =>
      match match_here r (pre ++ s) with
      | Some _ => false
      | None => no_match_in r pre' s
      end
  end.

(** [p] occurs nowhere in [s]. *)
Fixpoint absent (p s : string) : bool :=
  negb (HasPrefix s p) &&
  match s with
  | "" => true
  | String _ s' => absent p s'
  end.

(** The lines of a text. *)
Fixpoint lines_from (cur : string) (s : string) : list string :=
  match s with
  | "" => cons cur nil
  | String c s' =>
      if Ascii.eqb c nl then cons cur (lines_from "" s')
      else lines_from (cur ++ String c "") s'
  end.

Definition lines (s : string) : list string := lines_from "" s.

(** A block with content [c], as it is written in a pull request. *)
Definition block (c : string) : string := openFence ++ c ++ closeFence.

(** *** Inputs used as examples *)

Definition env_of (comment actor : string) (mergers : list string) : env :=
  {| GithubToken := "token"; Owner := "octo"; Repo := "demo";
     PRNumber := 7; Comment := comment; MergeMethod := "merge";
     Mergers := mergers; Actor := actor; EnableAutoMerge := false |}.

Definition pr_of (body : string) (labels : list string)
    : github.PullRequest :=
  {| github.Number := Some 7%Z; github.Title := Some "Fix crash";
     github.Body := Some body;
     github.Labels :=
       map (fun l => Some {| github.Name := Some l |}) labels |}.

(** The world in which every call to GitHub succeeds, for the inputs [e]. *)
Definition calm_world (e : env) : collaborators :=
  {| Process := fun _ => inl e;
     PullRequests_Get := fun _ _ _ => inl (pr_of "" nil);
     PullRequests_Merge := fun _ _ _ _ _ _ => None;
     Command_gh_Run := fun _ => None;
     Issues_CreateComment := fun _ _ _ _ => None |}.

(** The longest prefix of [s] whose bytes satisfy [p], and what follows
    it. *)
Fixpoint take_while (p : ascii -> bool) (s : string) : string :=
  match s with
  | "" => ""
  | String c s' => if p c then String c (take_while p s') else ""
  end.

Fixpoint skip_while (p : ascii -> bool) (s : string) : string :=
  match s with
  | "" => ""
  | String c s' => if p c then skip_while p s' else s
  end.

(** *** Notions used for the further properties *)

(** Any byte but a capital A. *)
Definition notA (c : ascii) : bool := negb (Ascii.eqb c "A").

(** [s] starts, or ends, with a rune that [strings.TrimSpace] removes. *)
Definition leading_space (s : string) : bool :=
  match strip_one spaceRunes s with Some _ => true | None => false end.

Definition trailing_space (s : string) : bool :=
  match strip_one (map rev spaceRunes) (rev s) with
  | Some _ => true
  | None => false
  end.

(** The calls of a log that fetch the pull request, and those that ask
    for a merge. *)
Definition is_fetch (ev : event) : bool :=
  match ev with GotPullRequest _ _ _ => true | _ => false end.

Definition is_merge_request (ev : event) : bool :=
  match ev with
  | MergeCalled _ _ _ _ _ _ => true
  | GhRun _ => true
  | _ => false
  end.

(** The request [merge] makes for the inputs [e] and the pull request
    [pr]. *)
Definition merge_request (e : env) (pr : github.PullRequest) : event :=
  if EnableAutoMerge e then
    GhRun
      [ "pr"; "merge"; Itoa (PRNumber e); ("--" ++ MergeMethod e)%string;
        "--auto"; "--subject"; generateCommitSubject pr;
        "--body"; fst (generateCommitBody pr); "--repo";
        (Owner e ++ "/" ++ Repo e)%string ]%list
  else
    MergeCalled (Owner e) (Repo e) (PRNumber e) (fst (generateCommitBody pr))
      (generateCommitSubject pr) (MergeMethod e).

(** What GitHub, or [gh], answers to that request. *)
Definition merge_answer (w : collaborators) (e : env)
    (pr : github.PullRequest) : error :=
  if EnableAutoMerge e then
    Command_gh_Run w
      [ "pr"; "merge"; Itoa (PRNumber e); ("--" ++ MergeMethod e)%string;
        "--auto"; "--subject"; generateCommitSubject pr;
        "--body"; fst (generateCommitBody pr); "--repo";
        (Owner e ++ "/" ++ Repo e)%string ]%list
  else
    PullRequests_Merge w (Owner e) (Repo e) (PRNumber e)
      (fst (generateCommitBody pr)) (generateCommitSubject pr) (MergeMethod e).

(** The comment of a run that succeeded. *)
Definition success_comment (e : env) : string :=
  "Merged PR #" ++ Itoa (PRNumber e) ++ " successfully!".

(** The five ways a run can go, with the log of each. *)
Inductive run_of (w : collaborators) : outcome -> list event -> Prop :=
| run_not_loaded err :
    Process w "INPUT" = inr err ->
    run_of w (Panicked err)
      (cons (Printed ("failed to load inputs: " ++ err ++ String nl "")) nil)
| run_refused e err out p :
    Process w "INPUT" = inl e -> validateEnv e = Some err ->
    run_of w (Panicked out)
      (cons (CommentPosted (Owner e) (Repo e) (PRNumber e) (errMsg (Some err)))
         (cons (Printed p) nil))
| run_not_fetched e err out p :
    Process w "INPUT" = inl e -> validateEnv e = None ->
    PullRequests_Get w (Owner e) (Repo e) (PRNumber e) = inr err ->
    run_of w (Panicked out)
      (cons (GotPullRequest (Owner e) (Repo e) (PRNumber e))
         (cons (CommentPosted (Owner e) (Repo e) (PRNumber e)
                  (errMsg (Some ("failed to get pull request: " ++ err))))
            (cons (Printed p) nil)))
| run_not_merged e pr err out p :
    Process w "INPUT" = inl e -> validateEnv e = None ->
    PullRequests_Get w (Owner e) (Repo e) (PRNumber e) = inl pr ->
    merge_answer w e pr = Some err ->
    run_of w (Panicked out)
      (cons (GotPullRequest (Owner e) (Repo e) (PRNumber e))
         (cons (merge_request e pr)
            (cons (CommentPosted (Owner e) (Repo e) (PRNumber e)
                     (errMsg (Some ("failed to merge pull request: " ++ err))))
               (cons (Printed p) nil))))
| run_merged e pr out p :
    Process w "INPUT" = inl e -> validateEnv e = None ->
    PullRequests_Get w (Owner e) (Repo e) (PRNumber e) = inl pr ->
    merge_answer w e pr = None ->
    (out = Returned <->
     Issues_CreateComment w (Owner e) (Repo e) (PRNumber e) (success_comment e)
       = None) ->
    (out = Returned -> p = success_comment e) ->
    run_of w out
      (cons (GotPullRequest (Owner e) (Repo e) (PRNumber e))
         (cons (merge_request e pr)
            (cons (CommentPosted (Owner e) (Repo e) (PRNumber e)
                     (success_comment e))
               (cons (Printed p) nil)))).

(** A world in which GitHub refuses the merge, or the fetch, with [err]. *)
Definition refusing_world (e : env) (err : string) : collaborators :=
  {| Process := fun _ => inl e;
     PullRequests_Get := fun _ _ _ => inl (pr_of "" nil);
     PullRequests_Merge := fun _ _ _ _ _ _ => Some err;
     Command_gh_Run := fun _ => Some err;
     Issues_CreateComment := fun _ _ _ _ => None |}.

Definition unreachable_world (e : env) (err : string) : collaborators :=
  {| Process := fun _ => inl e;
     PullRequests_Get := fun _ _ _ => inr err;
     PullRequests_Merge := fun _ _ _ _ _ _ => None;
     Command_gh_Run := fun _ => None;
     Issues_CreateComment := fun _ _ _ _ => None |}.

(** [s] is made of the texts of [pats] put end to end. *)
Inductive made_of (pats : list string) : string -> Prop :=
| made_of_nothing : made_of pats ""
| made_of_more p s : In p pats -> made_of pats s -> made_of pats (p ++ s).

(** ** Strings *)

Lemma append_nil_r (s : string) : s ++ "" = s.
Proof. induction s; simpl; congruence. Qed.

Lemma append_assoc (a b c : string) : (a ++ b) ++ c = a ++ b ++ c.
Proof. induction a; simpl; congruence. Qed.

Lemma length_append (a b : string) :
  String.length (a ++ b) = String.length a + String.length b.
Proof. induction a; simpl; congruence. Qed.

Lemma drop_append (a b : string) : drop (String.length a) (a ++ b) = b.
Proof. induction a; simpl; auto. Qed.

Lemma take_append (a b : string) : take (String.length a) (a ++ b) = a.
Proof. induction a; simpl; congruence. Qed.

Lemma HasPrefix_append (p r : string) : HasPrefix (p ++ r) p = true.
Proof.
  induction p as [|c p IH]; simpl; auto.
  now rewrite Ascii.eqb_refl.
Qed.

Lemma HasPrefix_split (s p : string) :
  HasPrefix s p = true -> s = p ++ drop (String.length p) s.
Proof.
  revert s; induction p as [|c p IH]; intros s H; simpl in *; auto.
  destruct s as [|d s]; [discriminate|].
  apply andb_true_iff in H as [Hc Hp].
  apply Ascii.eqb_eq in Hc; subst d.
  now rewrite <- (IH s Hp).
Qed.

Lemma HasPrefix_iff (s p : string) :
  HasPrefix s p = true <-> exists r, s = p ++ r.
Proof.
  split.
  - intros H; eexists; now apply HasPrefix_split.
  - intros [r ->]; apply HasPrefix_append.
Qed.

Lemma length_drop_append_sub (a b : string) :
  String.length (a ++ b) - String.length b = String.length a.
Proof. rewrite length_append; lia. Qed.

Lemma take_skip_while (p : ascii -> bool) (s : string) :
  take_while p s ++ skip_while p s = s.
Proof.
  induction s as [|c s IH]; simpl; auto.
  destruct (p c); simpl; congruence.
Qed.

Lemma all_bytes_take_while (p : ascii -> bool) (s : string) :
  all_bytes p (take_while p s) = true.
Proof.
  induction s as [|c s IH]; simpl; auto.
  destruct (p c) eqn:E; simpl; auto.
  now rewrite E.
Qed.

Lemma take_while_stop (p : ascii -> bool) (a : string) (c : ascii) (r : string) :
  all_bytes p a = true -> p c = false ->
  take_while p (a ++ String c r) = a.
Proof.
  intros Ha Hc; induction a as [|d a IH]; simpl in *.
  - now rewrite Hc.
  - apply andb_true_iff in Ha as [Hd Ha]. rewrite Hd. now rewrite IH.
Qed.

Lemma skip_while_stop (p : ascii -> bool) (a : string) (c : ascii) (r : string) :
  all_bytes p a = true -> p c = false ->
  skip_while p (a ++ String c r) = String c r.
Proof.
  intros Ha Hc; induction a as [|d a IH]; simpl in *.
  - now rewrite Hc.
  - apply andb_true_iff in Ha as [Hd Ha]. rewrite Hd. now apply IH.
Qed.

(** ** Trimming

    The fuel given to [strip_all] is enough: what it returns starts with
    none of the patterns. *)
Lemma strip_one_shorter (pats : list string) (s s' : string) :
  Forall (fun p => p <> "") pats -> strip_one pats s = Some s' ->
  String.length s' < String.length s.
Proof.
  induction 1 as [|p pats Hp _ IH]; cbn [strip_one]; [discriminate|].
  destruct (HasPrefix s p) eqn:E; [|exact IH].
  intros [= <-]. apply HasPrefix_split in E.
  rewrite E at 2. rewrite length_append.
  destruct p; [congruence | cbn [String.length]; lia].
Qed.

Lemma strip_one_empty (pats : list string) :
  Forall (fun p => p <> "") pats -> strip_one pats "" = None.
Proof.
  induction 1 as [|p pats Hp _ IH]; cbn [strip_one]; [reflexivity|].
  destruct p; [congruence | exact IH].
Qed.

Lemma strip_all_done (pats : list string) (fuel : nat) (s : string) :
  Forall (fun p => p <> "") pats -> String.length s <= fuel ->
  strip_one pats (strip_all pats fuel s) = None.
Proof.
  intros Hp. revert s; induction fuel as [|fuel IH]; intros s Hl.
  - destruct s; [|cbn [String.length] in Hl; lia].
    now apply strip_one_empty.
  - cbn [strip_all]. destruct (strip_one pats s) as [s'|] eqn:E; [|exact E].
    apply IH. pose proof (strip_one_shorter pats s s' Hp E). lia.
Qed.

Lemma spaceRunes_not_empty : Forall (fun p => p <> "") spaceRunes.
Proof. unfold spaceRunes. repeat constructor; discriminate. Qed.

Lemma rev_spaceRunes_not_empty :
  Forall (fun p => p <> "") (map rev spaceRunes).
Proof. unfold spaceRunes. repeat constructor; discriminate. Qed.

Lemma length_rev (s : string) : String.length (rev s) = String.length s.
Proof.
  induction s as [|c s IH]; [reflexivity|].
  cbn [rev String.length]. rewrite length_append, IH. cbn [String.length]. lia.
Qed.

Lemma TrimLeftSpace_done (s : string) :
  strip_one spaceRunes (TrimLeftSpace s) = None.
Proof. apply strip_all_done; [apply spaceRunes_not_empty | lia]. Qed.

Lemma TrimRightSpace_done (s : string) :
  exists t, TrimRightSpace s = rev t /\ strip_one (map rev spaceRunes) t = None.
Proof.
  eexists. split; [reflexivity|].
  apply strip_all_done; [apply rev_spaceRunes_not_empty|].
  rewrite length_rev. lia.
Qed.

(** ** The matcher on the two expressions of the program *)

(** A repeated class followed by something that cannot start with a byte
    of the class stops where the class stops, greedy or not. *)
Lemma plus_stops {R : Type} (cls : ascii -> bool) (g : greed) (s : string)
    (k : string -> option R) :
  (forall c s', cls c = true -> k (String c s') = None) ->
  plus cls g s k =
    if String.eqb (take_while cls s) "" then None else k (skip_while cls s).
Proof.
  intros Hk; induction s as [|c s IH]; simpl; auto.
  destruct (cls c) eqn:Hc; [|reflexivity].
  replace (String.eqb (String c (take_while cls s)) "") with false
    by (symmetry; now apply String.eqb_neq).
  destruct g.
  - rewrite IH. destruct s as [|d s]; simpl; auto.
    destruct (cls d) eqn:Hd; simpl; auto.
    replace (String.eqb (String d (take_while cls s)) "") with false
      by (symmetry; now apply String.eqb_neq).
    destruct (k (skip_while cls s)) eqn:E; auto.
  - destruct s as [|d s]; simpl.
    + destruct (k ""); auto.
    + destruct (cls d) eqn:Hd.
      * rewrite (Hk d s Hd). simpl in IH. rewrite Hd in IH.
        rewrite IH.
        replace (String.eqb (String d (take_while cls s)) "") with false
          by (symmetry; now apply String.eqb_neq).
        reflexivity.
      * destruct (k (String d s)); auto.
Qed.

Section Shape.
(** Both expressions are a literal, a captured repeated class and a
    literal whose first byte is outside the class. *)
Variables (a b' : string) (c0 : ascii) (cls : ascii -> bool) (g : greed).
Hypothesis c0_out : cls c0 = false.

Lemma match_here_shape (s : string) :
  match_here (shape a c0 b' cls g) s =
    if HasPrefix s a then
      let t := drop (String.length a) s in
      let cap := take_while cls t in
      if negb (String.eqb cap "") && HasPrefix (skip_while cls t) (String c0 b')
      then Some (cons (a ++ cap ++ (String c0 b')) (cons cap nil))
      else None
    else None.
Proof.
  unfold match_here, shape. cbn [run NumSubexp Nat.add].
  destruct (HasPrefix s a) eqn:Ha; [|reflexivity].
  apply HasPrefix_split in Ha.
  set (t := drop (String.length a) s) in *. clearbody t. subst s.
  rewrite plus_stops.
  2:{ intros c s' Hc. cbn [HasPrefix].
      destruct (Ascii.eqb_spec c0 c) as [->|_]; [congruence|reflexivity]. }
  cbv zeta.
  pose proof (take_skip_while cls t) as Ht.
  set (cap := take_while cls t) in *.
  set (sk := skip_while cls t) in *. clearbody cap sk. subst t.
  destruct (String.eqb cap "") eqn:Hcap; [reflexivity|].
  cbn [negb andb].
  destruct (HasPrefix sk (String c0 b')) eqn:Hb; [|reflexivity].
  apply HasPrefix_split in Hb.
  set (u := drop (String.length (String c0 b')) sk) in *. clearbody u. subst sk.
  f_equal. f_equal.
  - replace (a ++ cap ++ (String c0 b') ++ u) with ((a ++ cap ++ (String c0 b')) ++ u)
      by now rewrite !append_assoc.
    rewrite length_drop_append_sub. apply take_append.
  - f_equal. rewrite length_drop_append_sub. apply take_append.
Qed.

Lemma shape_complete (s cap rest : string) :
  cap <> "" -> all_bytes cls cap = true -> s = a ++ cap ++ (String c0 b') ++ rest ->
  match_here (shape a c0 b' cls g) s = Some (cons (a ++ cap ++ (String c0 b')) (cons cap nil)).
Proof.
  intros Hne Hall ->. rewrite match_here_shape.
  rewrite HasPrefix_append, drop_append. cbv zeta.
  assert (Ht : take_while cls (cap ++ (String c0 b') ++ rest) = cap)
    by now apply (take_while_stop cls cap c0 (b' ++ rest)).
  assert (Hs : skip_while cls (cap ++ (String c0 b') ++ rest) = (String c0 b') ++ rest)
    by now apply (skip_while_stop cls cap c0 (b' ++ rest)).
  rewrite Ht, Hs, HasPrefix_append.
  apply String.eqb_neq in Hne. now rewrite Hne.
Qed.

Lemma shape_sound (s : string) (ss : list string) :
  match_here (shape a c0 b' cls g) s = Some ss ->
  exists cap rest,
    cap <> "" /\ all_bytes cls cap = true /\ s = a ++ cap ++ (String c0 b') ++ rest /\
    ss = cons (a ++ cap ++ (String c0 b')) (cons cap nil).
Proof.
  rewrite match_here_shape.
  destruct (HasPrefix s a) eqn:Ha; [|discriminate].
  cbv zeta.
  destruct (String.eqb _ "") eqn:Hcap; [discriminate|]. cbn [negb andb].
  destruct (HasPrefix _ (String c0 b')) eqn:Hb; [|discriminate].
  intros [= <-].
  apply HasPrefix_split in Ha, Hb. apply String.eqb_neq in Hcap.
  eexists _, _; repeat split; [exact Hcap | apply all_bytes_take_while |].
  rewrite <- Hb, take_skip_while. exact Ha.
Qed.
End Shape.

(** The leftmost match is the first position where the expression
    matches. *)
Lemma Find_here (r : regex) (s : string) (ss : list string) :
  match_here r s = Some ss -> FindStringSubmatch r s = ss.
Proof. intros H; destruct s; simpl; now rewrite H. Qed.

Lemma Find_skip (r : regex) (pre s : string) :
  (forall p1 p2, pre = p1 ++ p2 -> p2 <> "" -> match_here r (p2 ++ s) = None) ->
  FindStringSubmatch r (pre ++ s) = FindStringSubmatch r s.
Proof.
  induction pre as [|c pre IH]; intros H; [reflexivity|].
  cbn [append FindStringSubmatch].
  assert (E : match_here r (String c pre ++ s) = None)
    by (apply (H "" (String c pre) eq_refl); discriminate).
  cbn [append] in E. rewrite E.
  apply IH. intros p1 p2 -> Hne. now apply (H (String c p1) p2).
Qed.

Lemma Find_inv (r : regex) (s : string) :
  (FindStringSubmatch r s = nil /\
   forall p1 p2, s = p1 ++ p2 -> match_here r p2 = None) \/
  (exists pre t ss,
     s = pre ++ t /\ match_here r t = Some ss /\
     FindStringSubmatch r s = ss /\
     forall p1 p2, pre = p1 ++ p2 -> p2 <> "" ->
       match_here r (p2 ++ t) = None).
Proof.
  induction s as [|c s IH].
  - destruct (match_here r "") as [ss|] eqn:E.
    + right. exists "", "", ss. repeat split; auto.
      * now apply Find_here.
      * intros [|] [|]; simpl; congruence.
    + left. split; [simpl; now rewrite E|].
      intros [|] [|]; simpl; congruence.
  - destruct (match_here r (String c s)) as [ss|] eqn:E.
    + right. exists "", (String c s), ss. repeat split; auto.
      * now apply Find_here.
      * intros [|] [|]; simpl; congruence.
    + destruct IH as [[Hn Hall]|(pre & t & ss & -> & Hm & Hf & Hb)].
      * left. split; [simpl; now rewrite E|].
        intros [|d p1] p2; simpl; intros Heq.
        -- now subst p2.
        -- injection Heq as _ Heq. now apply (Hall p1).
      * right. exists (String c pre), t, ss. repeat split; auto.
        -- cbn [append FindStringSubmatch]. now rewrite E.
        -- intros [|d p1] p2; simpl; intros Heq Hne.
           ++ subst p2. exact E.
           ++ injection Heq as _ Heq. now apply (Hb p1).
Qed.

Lemma release_match (s cap : string) :
  block_here s cap ->
  match_here releaseNoteRegexp s
    = Some (cons (openFence ++ cap ++ closeFence) (cons cap nil)).
Proof.
  intros (Hne & Hall & rest & ->).
  apply (shape_complete openFence "```" nl notNewline NonGreedy eq_refl
           _ cap rest); auto.
Qed.

Lemma release_match_inv (s : string) (ss : list string) :
  match_here releaseNoteRegexp s = Some ss ->
  exists cap,
    block_here s cap /\ ss = cons (openFence ++ cap ++ closeFence) (cons cap nil).
Proof.
  intros H.
  apply (shape_sound openFence "```" nl notNewline NonGreedy eq_refl) in H.
  destruct H as (cap & rest & Hne & Hall & -> & ->).
  exists cap. split; [|reflexivity]. repeat split; auto. now exists rest.
Qed.

Lemma approval_match (s n : string) :
  approval_here s n ->
  match_here needApproveRegexp s
    = Some (cons ("At least " ++ n ++ approveTail) (cons n nil)).
Proof.
  intros (Hne & Hall & rest & ->).
  apply (shape_complete "At least "
           "approving review is required by reviewers with write access"
           " "%char isDigit Greedy eq_refl _ n rest); auto.
Qed.

Lemma approval_match_inv (s : string) (ss : list string) :
  match_here needApproveRegexp s = Some ss ->
  exists n,
    approval_here s n /\ ss = cons ("At least " ++ n ++ approveTail) (cons n nil).
Proof.
  intros H.
  apply (shape_sound "At least "
           "approving review is required by reviewers with write access"
           " "%char isDigit Greedy eq_refl) in H.
  destruct H as (n & rest & Hne & Hall & -> & ->).
  exists n. split; [|reflexivity]. repeat split; auto. now exists rest.
Qed.

Lemma no_release_match (s : string) :
  (forall cap, ~ block_here s cap) -> match_here releaseNoteRegexp s = None.
Proof.
  intros H. destruct (match_here releaseNoteRegexp s) eqn:E; [|reflexivity].
  apply release_match_inv in E as (cap & Hb & _). now destruct (H cap).
Qed.

Lemma no_approval_match (s : string) :
  (forall n, ~ approval_here s n) -> match_here needApproveRegexp s = None.
Proof.
  intros H. destruct (match_here needApproveRegexp s) eqn:E; [|reflexivity].
  apply approval_match_inv in E as (n & Hb & _). now destruct (H n).
Qed.

Lemma no_match_in_before (r : regex) (pre s : string) :
  no_match_in r pre s = true ->
  forall p1 p2, pre = p1 ++ p2 -> p2 <> "" -> match_here r (p2 ++ s) = None.
Proof.
  induction pre as [|c pre IH]; intros H p1 p2 Heq Hne.
  - destruct p1, p2; simpl in Heq; congruence.
  - cbn [no_match_in] in H.
    destruct (match_here r (String c pre ++ s)) eqn:E; [discriminate|].
    destruct p1 as [|d p1]; simpl in Heq.
    + now subst p2.
    + injection Heq as _ Heq. now apply (IH H p1).
Qed.

Lemma none_before_block (pre s : string) :
  no_match_in releaseNoteRegexp pre s = true -> none_before a_block pre s.
Proof.
  intros H p1 p2 Heq Hne [cap Hb].
  apply release_match in Hb.
  now rewrite (no_match_in_before _ _ _ H p1 p2 Heq Hne) in Hb.
Qed.

Lemma none_before_approval (pre s : string) :
  no_match_in needApproveRegexp pre s = true -> none_before an_approval pre s.
Proof.
  intros H p1 p2 Heq Hne [n Hb].
  apply approval_match in Hb.
  now rewrite (no_match_in_before _ _ _ H p1 p2 Heq Hne) in Hb.
Qed.

(** What the search for a release-note block returns. *)
Lemma Find_release_first (pre s cap : string) :
  block_here s cap -> none_before a_block pre s ->
  FindStringSubmatch releaseNoteRegexp (pre ++ s)
    = cons (block cap) (cons cap nil).
Proof.
  intros Hb Hn. rewrite Find_skip.
  - apply Find_here. now apply release_match.
  - intros p1 p2 Heq Hne. apply no_release_match.
    intros c Hc. apply (Hn p1 p2 Heq Hne). now exists c.
Qed.

Lemma Find_release_none (body : string) :
  (forall p1 p2, body = p1 ++ p2 -> ~ a_block p2) ->
  FindStringSubmatch releaseNoteRegexp body = nil.
Proof.
  intros H.
  destruct (Find_inv releaseNoteRegexp body)
    as [[Hn _]|(pre & t & ss & Heq & Hm & _)]; [assumption|].
  apply release_match_inv in Hm as (cap & Hb & _).
  destruct (H pre t Heq). now exists cap.
Qed.

Lemma Find_release_cases (body : string) :
  (FindStringSubmatch releaseNoteRegexp body = nil /\
   forall p1 p2, body = p1 ++ p2 -> ~ a_block p2) \/
  (exists pre s cap,
     body = pre ++ s /\ block_here s cap /\ none_before a_block pre s /\
     FindStringSubmatch releaseNoteRegexp body
       = cons (block cap) (cons cap nil)).
Proof.
  destruct (Find_inv releaseNoteRegexp body)
    as [[Hn Hall]|(pre & t & ss & Heq & Hm & Hf & Hb)].
  - left. split; [assumption|].
    intros p1 p2 Heq [cap Hc]. apply release_match in Hc.
    now rewrite (Hall p1 p2 Heq) in Hc.
  - right. apply release_match_inv in Hm as (cap & Hc & ->).
    exists pre, t, cap.
    split; [assumption|]. split; [assumption|]. split; [|assumption].
    intros p1 p2 Hp Hne [c Hc']. apply release_match in Hc'.
    now rewrite (Hb p1 p2 Hp Hne) in Hc'.
Qed.

Lemma Find_approval_first (pre s n : string) :
  approval_here s n -> none_before an_approval pre s ->
  FindStringSubmatch needApproveRegexp (pre ++ s)
    = cons ("At least " ++ n ++ approveTail) (cons n nil).
Proof.
  intros Hb Hn. rewrite Find_skip.
  - apply Find_here. now apply approval_match.
  - intros p1 p2 Heq Hne. apply no_approval_match.
    intros c Hc. apply (Hn p1 p2 Heq Hne). now exists c.
Qed.

Lemma Find_approval_none (msg : string) :
  (forall p1 p2, msg = p1 ++ p2 -> ~ an_approval p2) ->
  FindStringSubmatch needApproveRegexp msg = nil.
Proof.
  intros H.
  destruct (Find_inv needApproveRegexp msg)
    as [[Hn _]|(pre & t & ss & Heq & Hm & _)]; [assumption|].
  apply approval_match_inv in Hm as (n & Hb & _).
  destruct (H pre t Heq). now exists n.
Qed.

Lemma no_block_of_Find (body : string) :
  FindStringSubmatch releaseNoteRegexp body = nil ->
  forall p1 p2, body = p1 ++ p2 -> ~ a_block p2.
Proof.
  intros H. destruct (Find_release_cases body)
    as [[_ Hall]|(pre & s & cap & _ & _ & _ & Hf)]; [assumption|].
  rewrite Hf in H. discriminate.
Qed.

Lemma no_approval_of_Find (msg : string) :
  FindStringSubmatch needApproveRegexp msg = nil ->
  forall p1 p2, msg = p1 ++ p2 -> ~ an_approval p2.
Proof.
  intros H p1 p2 Heq [n Hn].
  destruct (Find_inv needApproveRegexp msg)
    as [[_ Hall]|(pre & t & ss & _ & Hm & Hf & _)].
  - apply approval_match in Hn. now rewrite (Hall p1 p2 Heq) in Hn.
  - apply approval_match_inv in Hm as (m & _ & ->). congruence.
Qed.

(** ** The authorization gate *)

Lemma actor_in_In (actor : string) (mergers : list string) :
  actor_in actor mergers = true <-> In actor mergers.
Proof.
  induction mergers as [|m rest IH]; simpl.
  - split; [discriminate | tauto].
  - destruct (String.eqb_spec actor m) as [->|Hne].
    + tauto.
    + rewrite IH. split; [tauto | intros [E|H]; congruence].
Qed.

(** C1: [validateEnv] fails with the bad-trigger error whenever the comment
    is not exactly ["/merge"], whatever the actor and the mergers; with the
    right comment it succeeds when the list of mergers is empty, and
    otherwise it succeeds exactly when the actor is equal to an element of
    the list, failing with the actor-not-authorized error when it is not. *)
Theorem validateEnv_gate (e : env) :
  (Comment e <> "/merge" -> validateEnv e = BadTrigger (Comment e)) /\
  (Comment e = "/merge" -> Mergers e = nil -> validateEnv e = None) /\
  (Comment e = "/merge" -> Mergers e <> nil ->
     (validateEnv e = None <-> In (Actor e) (Mergers e)) /\
     (~ In (Actor e) (Mergers e) ->
        validateEnv e = ActorNotAuthorized (Actor e))).
Proof.
  unfold validateEnv, mergeComment, BadTrigger, ActorNotAuthorized.
  destruct (String.eqb_spec (Comment e) "/merge") as [Hc|Hc]; cbn [negb].
  - split; [congruence|]. split.
    + intros _ ->. reflexivity.
    + intros _ Hne.
      destruct (Mergers e) as [|m rest] eqn:Hm; [congruence|].
      cbn [List.length Nat.eqb]. rewrite <- Hm. clear Hm Hne.
      destruct (actor_in (Actor e) (Mergers e)) eqn:Ha.
      * apply actor_in_In in Ha. split; [tauto | contradiction].
      * assert (Hn : ~ In (Actor e) (Mergers e))
          by (rewrite <- actor_in_In; congruence).
        split; [|reflexivity]. split; [discriminate | contradiction].
  - split; [reflexivity|]. split; congruence.
Qed.

Lemma validateEnv_gate_witness :
  validateEnv (env_of "merge" "bob" (cons "alice" nil)) = BadTrigger "merge" /\
  validateEnv (env_of "/merge" "bob" nil) = None /\
  validateEnv (env_of "/merge" "bob" (cons "alice" (cons "bob" nil))) = None /\
  validateEnv (env_of "/merge" "Bob" (cons "alice" (cons "bob" nil)))
    = ActorNotAuthorized "Bob".
Proof.
  split; [|split; [|split]].
  - destruct (validateEnv_gate (env_of "merge" "bob" (cons "alice" nil)))
      as (H & _). apply H. discriminate.
  - destruct (validateEnv_gate (env_of "/merge" "bob" nil)) as (_ & H & _).
    apply H; reflexivity.
  - destruct (validateEnv_gate
                (env_of "/merge" "bob" (cons "alice" (cons "bob" nil))))
      as (_ & _ & H).
    apply H; [reflexivity | discriminate | simpl; auto].
  - destruct (validateEnv_gate
                (env_of "/merge" "Bob" (cons "alice" (cons "bob" nil))))
      as (_ & _ & H).
    apply H; [reflexivity | discriminate |].
    simpl. intros [E|[E|[]]]; discriminate.
Defined.

(** ** The error classifier *)

(** C6, as the program has it: an error whose message contains
    ["At least N approving review is required by reviewers with write
    access"], with a capital A and N one or more digits, is classified as
    ["Need N approving review"], N being taken where the message first
    matches; an error whose message matches nowhere is returned as it is;
    and no error gives ["Succeeded!"]. *)
Theorem errMsg_classify :
  (forall pre s n,
     approval_here s n -> none_before an_approval pre s ->
     errMsg (Some (pre ++ s)) = "Need " ++ n ++ " approving review") /\
  (forall msg,
     (forall p1 p2, msg = p1 ++ p2 -> ~ an_approval p2) ->
     errMsg (Some msg) = msg) /\
  errMsg None = "Succeeded!".
Proof.
  split; [|split; [|reflexivity]].
  - intros pre s n Hs Hn. unfold errMsg.
    now rewrite (Find_approval_first pre s n Hs Hn).
  - intros msg H. unfold errMsg.
    now rewrite (Find_approval_none msg H).
Qed.

Lemma errMsg_classify_witness :
  errMsg (Some ("PUT /merge: 405 " ++ "At least 12" ++ approveTail ++ ". []"))
    = "Need 12 approving review" /\
  errMsg (Some "context deadline exceeded") = "context deadline exceeded".
Proof.
  destruct errMsg_classify as (Hhit & Hmiss & _). split.
  - apply (Hhit "PUT /merge: 405 " ("At least 12" ++ approveTail ++ ". []") "12").
    + split; [discriminate|]. split; [reflexivity|]. now exists ". []".
    + apply none_before_approval. reflexivity.
  - apply (Hmiss "context deadline exceeded").
    apply no_approval_of_Find. reflexivity.
Defined.

(** The lower-case spelling of the pattern is not recognised: the message
    comes back unchanged. *)
Lemma errMsg_lower_case_counterexample :
  errMsg (Some ("at least 2" ++ approveTail)) = "at least 2" ++ approveTail /\
  errMsg (Some ("at least 2" ++ approveTail)) <> "Need 2 approving review".
Proof. split; [reflexivity | discriminate]. Qed.

(** ** Release-note extraction *)

Lemma split_found (body whole cap : string) :
  FindStringSubmatch releaseNoteRegexp body = cons whole (cons cap nil) ->
  splitReleaseNote body =
    if String.eqb (TrimSpace cap) "" then (body, "NONE")
    else (ReplaceAllEmpty body whole, TrimSpace cap).
Proof.
  intros H. unfold splitReleaseNote. rewrite H.
  cbn [List.length Nat.eqb negb nth].
  now destruct (String.eqb (TrimSpace cap) "").
Qed.

Lemma split_not_found (body : string) :
  FindStringSubmatch releaseNoteRegexp body = nil ->
  splitReleaseNote body = (body, "NONE").
Proof. intros H. unfold splitReleaseNote. now rewrite H. Qed.

(** C3: when no release-note block is found in the body, and likewise when
    the block that is found has empty trimmed content, the whole body is
    returned unchanged as the description, the block not being stripped,
    and the release note is ["NONE"]. *)
Theorem splitReleaseNote_nothing_to_extract :
  (forall body,
     (forall p1 p2, body = p1 ++ p2 -> ~ a_block p2) ->
     splitReleaseNote body = (body, "NONE")) /\
  (forall pre s cap,
     block_here s cap -> none_before a_block pre s -> TrimSpace cap = "" ->
     splitReleaseNote (pre ++ s) = (pre ++ s, "NONE")).
Proof.
  split.
  - intros body H. apply split_not_found. now apply Find_release_none.
  - intros pre s cap Hb Hn Ht.
    rewrite (split_found _ _ _ (Find_release_first pre s cap Hb Hn)).
    now rewrite Ht.
Qed.

Lemma splitReleaseNote_nothing_to_extract_witness :
  splitReleaseNote "fix the crash" = ("fix the crash", "NONE") /\
  splitReleaseNote ("notes: " ++ block "  " ++ " end")
    = ("notes: " ++ block "  " ++ " end", "NONE").
Proof.
  destruct splitReleaseNote_nothing_to_extract as [Hnone Hempty]. split.
  - apply (Hnone "fix the crash"). apply no_block_of_Find. reflexivity.
  - apply (Hempty "notes: " (block "  " ++ " end") "  ").
    + split; [discriminate|]. split; [reflexivity|]. now exists " end".
    + apply none_before_block. reflexivity.
    + reflexivity.
Defined.

(** *** Removal of the occurrences of a text *)

Lemma remove_skip (old : string) (k : nat) (s : string) :
  remove_from old k s = remove_from old 0 (drop k s).
Proof.
  revert k; induction s as [|c s IH]; intros [|k]; try reflexivity.
  cbn [remove_from drop]. apply IH.
Qed.

Lemma remove_hit (old s : string) :
  old <> "" -> HasPrefix s old = true ->
  remove_from old 0 s = remove_from old 0 (drop (String.length old) s).
Proof.
  intros Hne H. destruct old as [|a old]; [congruence|].
  destruct s as [|c s]; [discriminate|].
  cbn [remove_from]. rewrite H. rewrite remove_skip.
  replace (String.length (String a old) - 1) with (String.length old)
    by (cbn [String.length]; lia).
  reflexivity.
Qed.

Lemma remove_miss (old : string) (c : ascii) (s : string) :
  HasPrefix (String c s) old = false ->
  remove_from old 0 (String c s) = String c (remove_from old 0 s).
Proof. intros H. cbn [remove_from]. now rewrite H. Qed.

Lemma remove_clean_prefix (old pre s : string) :
  (forall p1 p2, pre = p1 ++ p2 -> p2 <> "" -> HasPrefix (p2 ++ s) old = false) ->
  remove_from old 0 (pre ++ s) = pre ++ remove_from old 0 s.
Proof.
  induction pre as [|c pre IH]; intros H; [reflexivity|].
  cbn [append]. rewrite remove_miss.
  - f_equal. apply IH. intros p1 p2 -> Hne. now apply (H (String c p1) p2).
  - apply (H "" (String c pre) eq_refl). discriminate.
Qed.

Lemma remove_absent (old s : string) :
  (forall p1 p2, s = p1 ++ p2 -> HasPrefix p2 old = false) ->
  remove_from old 0 s = s.
Proof.
  intros H. rewrite <- (append_nil_r s) at 1.
  rewrite remove_clean_prefix; [now rewrite append_nil_r|].
  intros p1 p2 -> _. rewrite append_nil_r. now apply (H p1 p2).
Qed.

Lemma absent_spec (p s : string) :
  absent p s = true -> forall p1 p2, s = p1 ++ p2 -> HasPrefix p2 p = false.
Proof.
  induction s as [|c s IH]; cbn [absent]; intros H p1 p2 Heq;
    apply andb_true_iff in H as [Hh Ht]; apply negb_true_iff in Hh.
  - destruct p1, p2; simpl in Heq; congruence.
  - destruct p1 as [|d p1]; simpl in Heq.
    + now subst p2.
    + injection Heq as _ Heq. now apply (IH Ht p1).
Qed.

Lemma absent_not_occurs (p s : string) : absent p s = true -> ~ occurs p s.
Proof.
  intros H (a & b & Heq).
  pose proof (absent_spec p s H a (p ++ b) Heq) as Hp.
  now rewrite HasPrefix_append in Hp.
Qed.

(** *** The fences *)

Lemma block_unfold (cap rest : string) :
  block cap ++ rest = openFence ++ cap ++ closeFence ++ rest.
Proof. unfold block. now rewrite !append_assoc. Qed.

Lemma block_not_empty (cap : string) : block cap <> "".
Proof. unfold block, openFence. cbn [append]. discriminate. Qed.

Lemma block_here_block (cap rest : string) :
  cap <> "" -> all_bytes notNewline cap = true ->
  block_here (block cap ++ rest) cap.
Proof.
  intros Hne Hall. split; [assumption|]. split; [assumption|].
  exists rest. apply block_unfold.
Qed.

Lemma a_block_starts_with_fence (s : string) :
  a_block s -> HasPrefix s openFence = true.
Proof. intros (cap & _ & _ & rest & ->). apply HasPrefix_append. Qed.

(** The opening fence does not overlap itself: an occurrence that starts
    before another one lies wholly before it. *)
Lemma fence_border (p x : string) :
  p <> "" -> HasPrefix (p ++ openFence ++ x) openFence = true ->
  HasPrefix p openFence = true.
Proof.
  intros Hne H. unfold openFence in *. cbn [append] in *.
  destruct p as [|c p]; [congruence|]. clear Hne.
  cbn [append HasPrefix] in *.
  destruct (Ascii.eqb _ c); [cbn [andb] in * | discriminate].
  do 15 (destruct p as [|c' p];
         [ vm_compute in H; discriminate
         | cbn [append HasPrefix] in *;
           destruct (Ascii.eqb _ c'); [cbn [andb] in * | discriminate];
           clear c' ]).
  reflexivity.
Qed.

Lemma fence_before_occurs (pre p1 p2 x : string) :
  pre = p1 ++ p2 -> p2 <> "" ->
  HasPrefix (p2 ++ openFence ++ x) openFence = true ->
  occurs openFence pre.
Proof.
  intros -> Hne H. apply fence_border in H; [|assumption].
  apply HasPrefix_iff in H as [r ->]. now exists p1, r.
Qed.

(** *** What is extracted *)

(** The block that is found first, with one line of content that is not
    blank: its trimmed content is the release note, and the description is
    the body without any occurrence of the block. *)
Lemma split_extracts (pre cap rest : string) :
  all_bytes notNewline cap = true -> TrimSpace cap <> "" ->
  none_before a_block pre (block cap ++ rest) ->
  FindStringSubmatch releaseNoteRegexp (pre ++ block cap ++ rest)
    = cons (block cap) (cons cap nil) /\
  splitReleaseNote (pre ++ block cap ++ rest)
    = (pre ++ ReplaceAllEmpty rest (block cap), TrimSpace cap).
Proof.
  intros Hall Ht Hn.
  assert (Hne : cap <> "") by (intros ->; now apply Ht).
  pose proof (block_here_block cap rest Hne Hall) as Hb.
  pose proof (Find_release_first pre _ cap Hb Hn) as Hf.
  split; [assumption|].
  rewrite (split_found _ _ _ Hf).
  apply String.eqb_neq in Ht. rewrite Ht. f_equal.
  unfold ReplaceAllEmpty.
  destruct (String.eqb_spec (block cap) "") as [E|_];
    [now destruct (block_not_empty cap)|].
  rewrite remove_clean_prefix.
  - f_equal. rewrite remove_hit;
      [now rewrite drop_append | apply block_not_empty | apply HasPrefix_append].
  - intros p1 p2 Heq Hp2.
    destruct (HasPrefix (p2 ++ block cap ++ rest) (block cap)) eqn:E;
      [|reflexivity].
    destruct (Hn p1 p2 Heq Hp2). exists cap.
    apply HasPrefix_iff in E as [r ->]. now apply block_here_block.
Qed.

(** C2, as the program has it: when the block that is found has a trimmed
    content that is not empty, [splitReleaseNote] returns that trimmed
    content as the release note and, as description, the body from which
    the text of the block is removed at the place where it was found and
    at every later occurrence as well ([strings.ReplaceAll]). *)
Theorem splitReleaseNote_removes_every_occurrence (pre cap rest : string) :
  all_bytes notNewline cap = true -> TrimSpace cap <> "" ->
  none_before a_block pre (block cap ++ rest) ->
  splitReleaseNote (pre ++ block cap ++ rest)
    = (pre ++ ReplaceAllEmpty rest (block cap), TrimSpace cap).
Proof. intros Hall Ht Hn. now apply split_extracts. Qed.

Lemma splitReleaseNote_removes_every_occurrence_witness :
  splitReleaseNote ("see " ++ block " fix " ++ " and " ++ block " fix " ++ ".")
    = ("see  and .", "fix").
Proof.
  apply (splitReleaseNote_removes_every_occurrence
           "see " " fix " (" and " ++ block " fix " ++ ".")).
  - reflexivity.
  - vm_compute. discriminate.
  - apply none_before_block. reflexivity.
Defined.

(** A second occurrence of the block does not remain in the description. *)
Lemma splitReleaseNote_first_only_counterexample :
  FindStringSubmatch releaseNoteRegexp
      (block "fix" ++ " again " ++ block "fix")
    = cons (block "fix") (cons "fix" nil) /\
  remove_first (block "fix") (block "fix" ++ " again " ++ block "fix")
    = " again " ++ block "fix" /\
  splitReleaseNote (block "fix" ++ " again " ++ block "fix")
    = (" again ", "fix") /\
  fst (splitReleaseNote (block "fix" ++ " again " ++ block "fix"))
    <> remove_first (block "fix") (block "fix" ++ " again " ++ block "fix").
Proof.
  split; [reflexivity|]. split; [reflexivity|]. split; [reflexivity|].
  vm_compute. discriminate.
Qed.

(** A line that does not begin with the closing marker does not begin
    with it either when something follows on the next line. *)
Lemma second_line_not_fence (more x : string) :
  HasPrefix more "```" = false -> HasPrefix (more ++ String nl x) "```" = false.
Proof.
  destruct more as [|c1 [|c2 [|c3 more]]]; cbn [append HasPrefix]; intros H.
  - reflexivity.
  - destruct (Ascii.eqb "`" c1); reflexivity.
  - destruct (Ascii.eqb "`" c1); [|reflexivity].
    destruct (Ascii.eqb "`" c2); reflexivity.
  - exact H.
Qed.

Lemma two_line_no_match_here (line more rest : string) :
  all_bytes notNewline line = true -> HasPrefix more "```" = false ->
  match_here releaseNoteRegexp (block (line ++ String nl more) ++ rest) = None.
Proof.
  intros Hall Hm.
  change releaseNoteRegexp
    with (shape openFence nl "```" notNewline NonGreedy).
  rewrite (match_here_shape openFence "```" nl notNewline NonGreedy eq_refl).
  replace (block (line ++ String nl more) ++ rest)
    with (openFence ++ line ++ String nl (more ++ closeFence ++ rest))
    by (unfold block; rewrite !append_assoc; reflexivity).
  rewrite HasPrefix_append, drop_append. cbv zeta.
  rewrite take_while_stop, skip_while_stop by auto.
  assert (E : HasPrefix (String nl (more ++ closeFence ++ rest))
                (String nl "```") = false).
  { change (HasPrefix (String nl (more ++ closeFence ++ rest))
              (String nl "```"))
      with (Ascii.eqb nl nl
            && HasPrefix (more ++ String nl ("```" ++ rest)) "```").
    now rewrite second_line_not_fence. }
  now rewrite E, andb_false_r.
Qed.

Lemma two_line_block_not_matched (line more rest : string) :
  all_bytes notNewline line = true -> HasPrefix more "```" = false ->
  ~ a_block (block (line ++ String nl more) ++ rest).
Proof.
  intros Hall Hm [cap Hb]. apply release_match in Hb.
  now rewrite (two_line_no_match_here line more rest Hall Hm) in Hb.
Qed.






(** C7, as the program has it: a second extraction, run on the description
    of a first one, returns ["NONE"] when the first one extracted nothing
    (no block, or a block whose trimmed content is empty), and when it
    extracted a block around which the body has no opening fence; then the
    description is the body without the block. *)
Theorem splitReleaseNote_second_pass :
  (forall body,
     (forall p1 p2, body = p1 ++ p2 -> ~ a_block p2) ->
     snd (splitReleaseNote (fst (splitReleaseNote body))) = "NONE") /\
  (forall pre s cap,
     block_here s cap -> none_before a_block pre s -> TrimSpace cap = "" ->
     snd (splitReleaseNote (fst (splitReleaseNote (pre ++ s)))) = "NONE") /\
  (forall pre cap rest,
     all_bytes notNewline cap = true -> TrimSpace cap <> "" ->
     ~ occurs openFence (pre ++ rest) ->
     fst (splitReleaseNote (pre ++ block cap ++ rest)) = pre ++ rest /\
     snd (splitReleaseNote (fst (splitReleaseNote (pre ++ block cap ++ rest))))
       = "NONE").
Proof.
  split; [|split].
  - intros body H.
    rewrite (split_not_found body (Find_release_none body H)). cbn [fst].
    now rewrite (split_not_found body (Find_release_none body H)).
  - intros pre s cap Hb Hn Ht.
    assert (E : splitReleaseNote (pre ++ s) = (pre ++ s, "NONE")).
    { rewrite (split_found _ _ _ (Find_release_first pre s cap Hb Hn)).
      now rewrite Ht. }
    rewrite E. cbn [fst]. now rewrite E.
  - intros pre cap rest Hall Ht Hno.
    assert (Hn : none_before a_block pre (block cap ++ rest)).
    { intros p1 p2 Heq Hne Hb. apply a_block_starts_with_fence in Hb.
      rewrite block_unfold in Hb.
      destruct (fence_before_occurs pre p1 p2 _ Heq Hne Hb) as (a & b & ->).
      apply Hno. exists a, (b ++ rest). now rewrite !append_assoc. }
    destruct (split_extracts pre cap rest Hall Ht Hn) as [_ Hs].
    assert (Hr : ReplaceAllEmpty rest (block cap) = rest).
    { unfold ReplaceAllEmpty.
      destruct (String.eqb (block cap) ""); [reflexivity|].
      apply remove_absent. intros p1 p2 -> .
      destruct (HasPrefix p2 (block cap)) eqn:E; [|reflexivity].
      apply HasPrefix_iff in E as [r ->]. destruct Hno.
      exists (pre ++ p1), (cap ++ closeFence ++ r).
      rewrite block_unfold. now rewrite !append_assoc. }
    rewrite Hs, Hr. cbn [fst]. split; [reflexivity|].
    rewrite split_not_found; [reflexivity|].
    apply Find_release_none. intros p1 p2 Heq Hb.
    apply a_block_starts_with_fence, HasPrefix_iff in Hb as [r ->].
    apply Hno. now exists p1, r.
Qed.

Lemma splitReleaseNote_second_pass_witness :
  snd (splitReleaseNote (fst (splitReleaseNote "fix the crash"))) = "NONE" /\
  snd (splitReleaseNote (fst (splitReleaseNote ("notes: " ++ block "  "))))
    = "NONE" /\
  snd (splitReleaseNote
         (fst (splitReleaseNote ("fix: " ++ block "fixed" ++ " (done)"))))
    = "NONE".
Proof.
  destruct splitReleaseNote_second_pass as (Hnone & Hempty & Hone).
  split; [|split].
  - apply (Hnone "fix the crash"). apply no_block_of_Find. reflexivity.
  - apply (Hempty "notes: " (block "  ") "  ").
    + split; [discriminate|]. split; [reflexivity|]. exists "".
      unfold block. now rewrite append_nil_r.
    + apply none_before_block. reflexivity.
    + reflexivity.
  - apply (Hone "fix: " "fixed" " (done)").
    + reflexivity.
    + vm_compute. discriminate.
    + apply absent_not_occurs. reflexivity.
Defined.

(** A second, different block survives the first extraction and is
    extracted by the second one. *)
Lemma splitReleaseNote_second_pass_counterexample :
  splitReleaseNote (block "one" ++ block "two") = (block "two", "one") /\
  snd (splitReleaseNote (fst (splitReleaseNote (block "one" ++ block "two"))))
    = "two" /\
  snd (splitReleaseNote (fst (splitReleaseNote (block "one" ++ block "two"))))
    <> "NONE".
Proof.
  split; [reflexivity|]. split; [reflexivity|]. vm_compute. discriminate.
Qed.

(** ** The commit body *)

Lemma concat_cons (x : string) (xs : list string) :
  String.concat "" (x :: xs) = x ++ String.concat "" xs.
Proof. destruct xs; cbn [String.concat append]; [now rewrite append_nil_r | reflexivity]. Qed.

Lemma Execute_bodyTpl (b : commitBody) :
  Execute bodyTpl b =
    (if String.eqb (Message b) "" then "" else String nl (Message b))
    ++ String nl ""
    ++ match Labels b with
       | nil => ""
       | _ => String nl "Labels:"
                ++ String.concat ""
                     (map (fun l => String nl (label_line l)) (Labels b))
       end
    ++ fence_block (ReleaseNote b).
Proof.
  unfold Execute, bodyTpl. cbn [map exec_node exec_item].
  repeat match goal with
         | |- context [lexed ?a ?t ?z] =>
             let v := eval vm_compute in (lexed a t z) in
             change (lexed a t z) with v
         end.
  rewrite !concat_cons. cbn [String.concat truth].
  rewrite (map_ext _ (fun l => String nl (label_line l)))
    by (intros l; now rewrite !append_nil_r).
  destruct (String.eqb (Message b) ""); destruct (Labels b) as [|l ls];
    cbn [negb List.length Nat.eqb append];
    rewrite ?append_nil_r, ?append_assoc; reflexivity.
Qed.

Lemma generateCommitBody_eq (pr : github.PullRequest) :
  generateCommitBody pr =
    (let b := newCommitBody pr in
     (if String.eqb (Message b) "" then "" else String nl (Message b))
     ++ String nl ""
     ++ match Labels b with
        | nil => ""
        | _ => String nl "Labels:"
                 ++ String.concat ""
                      (map (fun l => String nl (label_line l)) (Labels b))
        end
     ++ fence_block (ReleaseNote b), None).
Proof. unfold generateCommitBody. now rewrite Execute_bodyTpl. Qed.

(** With no label the opening fence starts a line. *)
Lemma fence_starts_a_line_without_labels (pr : github.PullRequest) :
  github.Labels pr = nil ->
  exists front,
    fst (generateCommitBody pr)
      = front ++ String nl "" ++ fence_block (snd (splitReleaseNote (github.GetBody pr))).
Proof.
  intros H. rewrite generateCommitBody_eq. unfold newCommitBody.
  rewrite H. destruct (splitReleaseNote (github.GetBody pr)) as [d rn].
  cbn [map Labels Message ReleaseNote fst snd append].
  eexists. reflexivity.
Qed.

(** With labels the opening fence follows the name of the last label on
    the same line. *)
Lemma fence_follows_last_label (pr : github.PullRequest)
    (ls : list (option github.Label)) (l : option github.Label) :
  github.Labels pr = (ls ++ cons l nil)%list ->
  exists front,
    fst (generateCommitBody pr)
      = front ++ label_line (github.GetName l)
          ++ fence_block (snd (splitReleaseNote (github.GetBody pr))).
Proof.
  intros H. rewrite generateCommitBody_eq. unfold newCommitBody.
  rewrite H. destruct (splitReleaseNote (github.GetBody pr)) as [d rn].
  cbn [Labels Message ReleaseNote fst snd].
  rewrite map_app. cbn [map].
  set (names := map github.GetName ls).
  assert (Hc : forall xs,
    String.concat "" (map (fun x => String nl (label_line x))
                        (xs ++ cons (github.GetName l) nil)%list)
    = String.concat "" (map (fun x => String nl (label_line x)) xs)
        ++ String nl "" ++ label_line (github.GetName l)).
  { induction xs as [|x xs IH].
    - cbn [app map String.concat append]. reflexivity.
    - cbn [app map]. rewrite !concat_cons, IH. now rewrite !append_assoc. }
  destruct (names ++ cons (github.GetName l) nil)%list eqn:E.
  - destruct names; discriminate.
  - rewrite <- E, Hc.
    eexists. rewrite <- !append_assoc. reflexivity.
Qed.

(** C5, at a pull request with one label and an empty body: the opening
    fence does not start a line, it follows the name of the label. *)
Theorem generateCommitBody_fence_after_label :
  fst (generateCommitBody (pr_of "" (cons "bug" nil)))
    = String nl (String nl "Labels:") ++ String nl "  * bug"
        ++ "```release-note" ++ String nl "* NONE" ++ String nl "```" /\
  lines (fst (generateCommitBody (pr_of "" (cons "bug" nil))))
    = (""  :: "" :: "Labels:" :: "  * bug```release-note" :: "* NONE"
          :: "```" :: nil).
Proof. split; reflexivity. Qed.

(** C10, at a pull request with two labels: the labels come in their
    order, but the line of the last one is not made of the two spaces,
    ["* "] and the name alone. *)
Theorem generateCommitBody_last_label_line :
  lines (fst (generateCommitBody (pr_of "" (cons "bug" (cons "P1" nil)))))
    = ("" :: "" :: "Labels:" :: "  * bug" :: "  * P1```release-note"
          :: "* NONE" :: "```" :: nil) /\
  ~ In (label_line "P1")
      (lines (fst (generateCommitBody (pr_of "" (cons "bug" (cons "P1" nil)))))).
Proof.
  split; [reflexivity|].
  vm_compute. intros H.
  repeat (destruct H as [H|H]; [discriminate|]). exact H.
Qed.

(** ** The orchestrator *)

Lemma comments_app (l1 l2 : list event) :
  comments (l1 ++ l2)%list = (comments l1 ++ comments l2)%list.
Proof.
  induction l1 as [|e l1 IH]; [reflexivity|].
  destruct e; cbn [app comments]; rewrite IH; reflexivity.
Qed.

Lemma sendMsg_log (w : collaborators) (owner repo : string) (n : Z)
    (msg : string) (log : list event) :
  exists r, sendMsg w owner repo n msg log
            = (r, (log ++ cons (CommentPosted owner repo n msg) nil)%list).
Proof.
  unfold sendMsg, bind, emit, ret.
  destruct (Issues_CreateComment w owner repo n msg); eexists; reflexivity.
Qed.

Lemma merge_log (w : collaborators) (owner repo : string) (n : Z)
    (method : string) (auto : bool) (log : list event) :
  comments (snd (merge w owner repo n method auto log)) = comments log.
Proof.
  unfold merge, bind, emit, ret.
  destruct (PullRequests_Get w owner repo n) as [pr|err]; cbn [snd].
  - unfold generateCommitBody.
    destruct auto.
    + destruct (Command_gh_Run w _); cbn [snd];
        rewrite !comments_app; cbn [comments]; now rewrite !app_nil_r.
    + destruct (PullRequests_Merge w _ _ _ _ _ _); cbn [snd];
        rewrite !comments_app; cbn [comments]; now rewrite !app_nil_r.
  - rewrite comments_app. cbn [comments]. now rewrite app_nil_r.
Qed.

(** The two failure branches of [main]: the error is reported in one
    comment, then the program panics. *)
Lemma report_log (w : collaborators) (e : env) (what err : string)
    (log log' : list event) (out : outcome) :
  (serr <- sendMsg w (Owner e) (Repo e) (PRNumber e) (errMsg (Some err)) ;;
   match serr with
   | Some serr =>
       emit (Printed ("failed to send message: " ++ serr
                        ++ " original: " ++ err)) ;;;
       ret (Panicked serr)
   | None => emit (Printed (what ++ err)) ;;; ret (Panicked err)
   end) log = (out, log') ->
  (exists msg, out = Panicked msg) /\
  comments log' = (comments log ++ cons (errMsg (Some err)) nil)%list.
Proof.
  unfold bind at 1.
  destruct (sendMsg_log w (Owner e) (Repo e) (PRNumber e)
              (errMsg (Some err)) log) as [r ->].
  destruct r as [serr|]; unfold bind, emit, ret; intros [= <- <-];
    (split; [eexists; reflexivity|]);
    rewrite !comments_app; cbn [comments]; now rewrite app_nil_r.
Qed.

(** C9: in a run whose inputs were loaded and which ends in a failure, one
    comment, and only one, was posted (that is, attempted) before the
    end: the report of the bad trigger, of the unauthorized actor, of the
    failed fetch or of the failed merge, or the success comment whose
    delivery failed. *)
Theorem main_failure_posts_one_comment (w : collaborators) (e : env)
    (out : outcome) (log : list event) :
  Process w "INPUT" = inl e -> main w nil = (out, log) -> out <> Returned ->
  exists msg, comments log = cons msg nil.
Proof.
  intros HP Hm Hout. unfold main in Hm. rewrite HP in Hm.
  destruct (validateEnv e) as [err|].
  - apply (report_log w e "failed to validate env: ") in Hm as [_ Hc].
    cbn [comments app] in Hc. eauto.
  - unfold bind at 1 in Hm.
    pose proof (merge_log w (Owner e) (Repo e) (PRNumber e) (MergeMethod e)
                  (EnableAutoMerge e) nil) as Hl.
    destruct (merge w (Owner e) (Repo e) (PRNumber e) (MergeMethod e)
                (EnableAutoMerge e) nil) as [merr log1].
    cbn [snd comments] in Hl.
    destruct merr as [err|].
    + apply (report_log w e "failed to merge: ") in Hm as [_ Hc].
      rewrite Hl in Hc. cbn [app] in Hc. eauto.
    + cbv zeta in Hm. unfold bind at 1 in Hm.
      destruct (sendMsg_log w (Owner e) (Repo e) (PRNumber e)
                  ("Merged PR #" ++ Itoa (PRNumber e) ++ " successfully!") log1)
        as [r Hs].
      rewrite Hs in Hm.
      destruct r as [serr|]; unfold bind, emit, ret in Hm;
        injection Hm as <- <-.
      * rewrite !comments_app, Hl. cbn [comments app]. eauto.
      * congruence.
Qed.

Lemma main_failure_posts_one_comment_witness :
  exists msg,
    comments (snd (main (calm_world (env_of "merge it" "bob" nil)) nil))
      = cons msg nil.
Proof.
  apply (main_failure_posts_one_comment
           (calm_world (env_of "merge it" "bob" nil))
           (env_of "merge it" "bob" nil)
           (fst (main (calm_world (env_of "merge it" "bob" nil)) nil))).
  - reflexivity.
  - reflexivity.
  - vm_compute. discriminate.
Defined.

(** When the inputs cannot be loaded the program panics at once, before any
    comment. *)
Lemma main_load_failure (w : collaborators) (err : string) :
  Process w "INPUT" = inr err ->
  fst (main w nil) = Panicked err /\ comments (snd (main w nil)) = nil.
Proof. intros H. unfold main. rewrite H. split; reflexivity. Qed.

(** A refused trigger or actor is reported with the text of the error. *)
Lemma main_gate_failure (w : collaborators) (e : env) (err : string) :
  Process w "INPUT" = inl e -> validateEnv e = Some err ->
  comments (snd (main w nil)) = cons (errMsg (Some err)) nil.
Proof.
  intros HP Hv. unfold main. rewrite HP, Hv.
  destruct (report_log w e "failed to validate env: " err nil
              _ _ (surjective_pairing _)) as [_ Hc].
  exact Hc.
Qed.

(** ** The examples of the specification *)

Example extract_one_line_note :
  splitReleaseNote
    ("fix bug" ++ String nl (String nl "") ++ block "fixed the thing")
  = ("fix bug" ++ String nl (String nl ""), "fixed the thing").
Proof. reflexivity. Qed.

Example extract_empty_block :
  splitReleaseNote ("```release-note" ++ String nl (String nl "```"))
  = ("```release-note" ++ String nl (String nl "```"), "NONE").
Proof. reflexivity. Qed.

Example subject_of_pull_request :
  generateCommitSubject
    {| github.Number := Some 42%Z; github.Title := Some "Add feature";
       github.Body := None; github.Labels := nil |}
  = "Add feature (#42)".
Proof. reflexivity. Qed.

Example body_without_message_and_labels :
  generateCommitBody (pr_of "" nil)
  = (String nl "```release-note" ++ String nl "* NONE" ++ String nl "```",
     None).
Proof. reflexivity. Qed.

Example classify_two_reviews :
  errMsg (Some ("failed to merge pull request: PUT /merge: 405 "
                  ++ "At least 2" ++ approveTail ++ " []"))
  = "Need 2 approving review".
Proof. reflexivity. Qed.

Example merge_run :
  main (calm_world (env_of "/merge" "bob" (cons "bob" nil))) nil
  = (Returned,
     (GotPullRequest "octo" "demo" 7
        :: MergeCalled "octo" "demo" 7
             (String nl "```release-note" ++ String nl "* NONE"
                ++ String nl "```")
             "Fix crash (#7)" "merge"
        :: CommentPosted "octo" "demo" 7 "Merged PR #7 successfully!"
        :: Printed "Merged PR #7 successfully!" :: nil)%list).
Proof. reflexivity. Qed.

(** * Further properties of the program *)

(** ** The gate reads the mergers as a set *)

(** X1: [validateEnv] depends on the list of mergers only through the
    names it contains: two inputs with the same comment and actor and with
    lists that have the same elements, in any order and with any
    repetition, get the same answer. *)
Theorem validateEnv_mergers_as_set (e1 e2 : env) :
  Comment e1 = Comment e2 -> Actor e1 = Actor e2 ->
  (forall m, In m (Mergers e1) <-> In m (Mergers e2)) ->
  validateEnv e1 = validateEnv e2.
Proof.
  intros Hc Ha Hm. unfold validateEnv. rewrite Hc, Ha.
  destruct (negb (String.eqb (Comment e2) mergeComment)); [reflexivity|].
  assert (Hin : actor_in (Actor e2) (Mergers e1)
                = actor_in (Actor e2) (Mergers e2)).
  { destruct (actor_in (Actor e2) (Mergers e1)) eqn:E1;
      destruct (actor_in (Actor e2) (Mergers e2)) eqn:E2; try reflexivity.
    - apply actor_in_In, Hm, actor_in_In in E1. congruence.
    - apply actor_in_In, Hm, actor_in_In in E2. congruence. }
  destruct (Mergers e1) as [|a l1] eqn:H1; destruct (Mergers e2) as [|b l2] eqn:H2;
    cbn [List.length Nat.eqb].
  - reflexivity.
  - destruct (proj2 (Hm b)). now left.
  - destruct (proj1 (Hm a)). now left.
  - now rewrite Hin.
Qed.

Lemma validateEnv_mergers_as_set_witness :
  validateEnv (env_of "/merge" "bob" (cons "alice" (cons "bob" nil)))
  = validateEnv
      (env_of "/merge" "bob" (cons "bob" (cons "alice" (cons "bob" nil)))).
Proof.
  apply (validateEnv_mergers_as_set
           (env_of "/merge" "bob" (cons "alice" (cons "bob" nil)))
           (env_of "/merge" "bob" (cons "bob" (cons "alice" (cons "bob" nil)))));
    [reflexivity | reflexivity |].
  intros m. simpl. tauto.
Defined.

(** ** The release note and the description *)

Lemma all_bytes_append (p : ascii -> bool) (a b : string) :
  all_bytes p (a ++ b) = all_bytes p a && all_bytes p b.
Proof.
  induction a as [|c a IH]; cbn [append all_bytes]; [reflexivity|].
  now rewrite IH, andb_assoc.
Qed.

Lemma all_bytes_drop (p : ascii -> bool) (n : nat) (s : string) :
  all_bytes p s = true -> all_bytes p (drop n s) = true.
Proof.
  revert s; induction n as [|n IH]; intros [|c s] H; cbn [drop]; auto.
  cbn [all_bytes] in H. apply andb_true_iff in H as [_ H]. now apply IH.
Qed.

Lemma all_bytes_rev (p : ascii -> bool) (s : string) :
  all_bytes p (rev s) = all_bytes p s.
Proof.
  induction s as [|c s IH]; [reflexivity|].
  cbn [rev all_bytes]. rewrite all_bytes_append, IH. cbn [all_bytes].
  rewrite andb_true_r. apply andb_comm.
Qed.

Lemma strip_one_keeps (p : ascii -> bool) (pats : list string) (s s' : string) :
  all_bytes p s = true -> strip_one pats s = Some s' -> all_bytes p s' = true.
Proof.
  intros H. induction pats as [|q pats IH]; cbn [strip_one]; [discriminate|].
  destruct (HasPrefix s q); [|exact IH].
  intros [= <-]. now apply all_bytes_drop.
Qed.

Lemma strip_all_keeps (p : ascii -> bool) (pats : list string) (fuel : nat)
    (s : string) :
  all_bytes p s = true -> all_bytes p (strip_all pats fuel s) = true.
Proof.
  revert s; induction fuel as [|fuel IH]; intros s H; cbn [strip_all]; auto.
  destruct (strip_one pats s) as [s'|] eqn:E; [|assumption].
  apply IH. now apply (strip_one_keeps p pats s s').
Qed.

Lemma TrimSpace_keeps (p : ascii -> bool) (s : string) :
  all_bytes p s = true -> all_bytes p (TrimSpace s) = true.
Proof.
  intros H. unfold TrimSpace, TrimRightSpace, TrimLeftSpace.
  rewrite all_bytes_rev. apply strip_all_keeps.
  rewrite all_bytes_rev. now apply strip_all_keeps.
Qed.

Lemma split_note_no_newline (body : string) :
  all_bytes notNewline (snd (splitReleaseNote body)) = true.
Proof.
  destruct (Find_release_cases body)
    as [[Hn _]|(pre & s & cap & _ & (_ & Hall & _) & _ & Hf)].
  - now rewrite (split_not_found body Hn).
  - rewrite (split_found body _ _ Hf).
    destruct (String.eqb (TrimSpace cap) ""); cbn [snd]; [reflexivity|].
    now apply TrimSpace_keeps.
Qed.

(** X2: the release note returned by [splitReleaseNote] is always a single
    line: it contains no newline byte. *)
Theorem splitReleaseNote_note_one_line (body : string) :
  all_bytes notNewline (snd (splitReleaseNote body)) = true.
Proof. apply split_note_no_newline. Qed.

Lemma rev_append (a b : string) : rev (a ++ b) = rev b ++ rev a.
Proof.
  induction a as [|c a IH]; cbn [append rev].
  - now rewrite append_nil_r.
  - now rewrite IH, append_assoc.
Qed.

Lemma rev_involutive (s : string) : rev (rev s) = s.
Proof.
  induction s as [|c s IH]; [reflexivity|].
  cbn [rev]. rewrite rev_append, IH. reflexivity.
Qed.

Lemma HasPrefix_app_l (a b p : string) :
  HasPrefix a p = true -> HasPrefix (a ++ b) p = true.
Proof.
  intros H. apply HasPrefix_iff in H as [r ->]. rewrite append_assoc.
  apply HasPrefix_append.
Qed.

Lemma strip_one_app_l (pats : list string) (a b : string) :
  strip_one pats (a ++ b) = None -> strip_one pats a = None.
Proof.
  induction pats as [|p pats IH]; cbn [strip_one]; [reflexivity|].
  destruct (HasPrefix (a ++ b) p) eqn:E; [discriminate|].
  destruct (HasPrefix a p) eqn:Ea; [|exact IH].
  now rewrite (HasPrefix_app_l a b p Ea) in E.
Qed.

Lemma strip_one_suffix (pats : list string) (s s' : string) :
  strip_one pats s = Some s' -> exists x, s = x ++ s'.
Proof.
  induction pats as [|p pats IH]; cbn [strip_one]; [discriminate|].
  destruct (HasPrefix s p) eqn:E; [|exact IH].
  intros [= <-]. exists p. now apply HasPrefix_split.
Qed.

Lemma strip_all_suffix (pats : list string) (fuel : nat) (s : string) :
  exists x, s = x ++ strip_all pats fuel s.
Proof.
  revert s; induction fuel as [|fuel IH]; intros s; cbn [strip_all].
  - now exists "".
  - destruct (strip_one pats s) as [s'|] eqn:E; [|now exists ""].
    apply strip_one_suffix in E as [x ->].
    destruct (IH s') as [y Hy]. exists (x ++ y).
    rewrite append_assoc. now rewrite <- Hy.
Qed.

Lemma TrimSpace_trimmed (s : string) :
  leading_space (TrimSpace s) = false /\ trailing_space (TrimSpace s) = false.
Proof.
  unfold leading_space, trailing_space, TrimSpace, TrimRightSpace.
  set (l := TrimLeftSpace s).
  set (t := strip_all (map rev spaceRunes) (String.length l) (rev l)).
  assert (Ht : strip_one (map rev spaceRunes) t = None).
  { apply strip_all_done; [apply rev_spaceRunes_not_empty|].
    rewrite length_rev. lia. }
  rewrite rev_involutive, Ht. split; [|reflexivity].
  destruct (strip_all_suffix (map rev spaceRunes) (String.length l) (rev l))
    as [x Hx].
  fold t in Hx.
  assert (Hl : l = rev t ++ rev x).
  { rewrite <- rev_append, <- Hx. symmetry. apply rev_involutive. }
  pose proof (TrimLeftSpace_done s) as Hd. fold l in Hd. rewrite Hl in Hd.
  now rewrite (strip_one_app_l _ _ _ Hd).
Qed.

(** X3: the release note returned by [splitReleaseNote] neither starts nor
    ends with a white-space rune. *)
Theorem splitReleaseNote_note_trimmed (body : string) :
  leading_space (snd (splitReleaseNote body)) = false /\
  trailing_space (snd (splitReleaseNote body)) = false.
Proof.
  destruct (Find_release_cases body)
    as [[Hn _]|(pre & s & cap & _ & _ & _ & Hf)].
  - rewrite (split_not_found body Hn). split; reflexivity.
  - rewrite (split_found body _ _ Hf).
    destruct (String.eqb (TrimSpace cap) ""); cbn [snd];
      [split; reflexivity | apply TrimSpace_trimmed].
Qed.

Lemma length_remove_from (old : string) (k : nat) (s : string) :
  String.length (remove_from old k s) <= String.length s.
Proof.
  revert k; induction s as [|c s IH]; intros k; cbn [remove_from String.length];
    [lia|].
  destruct k as [|k].
  - destruct (HasPrefix (String c s) old); cbn [String.length].
    + specialize (IH (String.length old - 1)). lia.
    + specialize (IH 0). lia.
  - specialize (IH k). lia.
Qed.

Lemma length_ReplaceAllEmpty (s old : string) :
  String.length (ReplaceAllEmpty s old) <= String.length s.
Proof.
  unfold ReplaceAllEmpty. destruct (String.eqb old ""); [lia|].
  apply length_remove_from.
Qed.

(** X4: the description returned by [splitReleaseNote] is the body itself
    or it is shorter than the body by the length of the block that was
    extracted, at least; it is never longer. *)
Theorem splitReleaseNote_description_shorter (body : string) :
  fst (splitReleaseNote body) = body \/
  exists pre cap rest,
    body = pre ++ block cap ++ rest /\
    snd (splitReleaseNote body) = TrimSpace cap /\
    String.length (fst (splitReleaseNote body)) + String.length (block cap)
      <= String.length body.
Proof.
  destruct (Find_release_cases body)
    as [[Hn _]|(pre & s & cap & -> & Hb & Hnb & Hf)].
  - left. now rewrite (split_not_found body Hn).
  - destruct (String.eqb_spec (TrimSpace cap) "") as [He|Hne].
    + left. rewrite (split_found _ _ _ Hf). apply String.eqb_eq in He.
      now rewrite He.
    + right. exists pre, cap.
      destruct Hb as (_ & Hall & rest & ->). exists rest.
      rewrite <- block_unfold in Hnb |- *.
      destruct (split_extracts pre cap rest Hall Hne Hnb) as [_ ->].
      cbn [fst snd]. split; [reflexivity|]. split; [reflexivity|].
      rewrite !length_append.
      pose proof (length_ReplaceAllEmpty rest (block cap)). lia.
Qed.

(** X5: a body that lacks the text of the opening fence, or the text of
    the closing fence, is returned unchanged with the release note
    ["NONE"]. *)
Theorem splitReleaseNote_needs_both_fences (body : string) :
  ~ occurs openFence body \/ ~ occurs closeFence body ->
  splitReleaseNote body = (body, "NONE").
Proof.
  intros H. apply split_not_found, Find_release_none.
  intros p1 p2 -> (cap & _ & _ & rest & ->).
  destruct H as [H|H]; apply H.
  - now exists p1, (cap ++ closeFence ++ rest).
  - exists (p1 ++ openFence ++ cap), rest. now rewrite !append_assoc.
Qed.

Lemma splitReleaseNote_needs_both_fences_witness :
  splitReleaseNote ("```release-note" ++ String nl "never closed")
    = ("```release-note" ++ String nl "never closed", "NONE") /\
  splitReleaseNote ("only a closing" ++ String nl "```")
    = ("only a closing" ++ String nl "```", "NONE").
Proof.
  split.
  - apply (splitReleaseNote_needs_both_fences
             ("```release-note" ++ String nl "never closed")).
    right. apply absent_not_occurs. reflexivity.
  - apply (splitReleaseNote_needs_both_fences
             ("only a closing" ++ String nl "```")).
    left. apply absent_not_occurs. reflexivity.
Defined.

(** ** The commit body *)

(** X6: the layout of the commit body.  It is made, in this order, of a
    newline and the description when the description is not empty; a
    newline; when there are labels, a newline, ["Labels:"] and for each
    label, in the order of the pull request, a newline, two spaces,
    ["* "] and its name (empty for a label without a name); and the
    release-note block.  Description, names and release note are copied as
    they are, and no error is returned. *)
Theorem commit_body_layout (pr : github.PullRequest) :
  generateCommitBody pr =
    ((if String.eqb (fst (splitReleaseNote (github.GetBody pr))) "" then ""
      else String nl (fst (splitReleaseNote (github.GetBody pr))))
     ++ String nl ""
     ++ match github.Labels pr with
        | nil => ""
        | _ =>
            String nl "Labels:"
              ++ String.concat ""
                   (map (fun l => String nl ("  * " ++ github.GetName l))
                      (github.Labels pr))
        end
     ++ fence_block (snd (splitReleaseNote (github.GetBody pr))), None).
Proof.
  rewrite generateCommitBody_eq. unfold newCommitBody.
  destruct (splitReleaseNote (github.GetBody pr)) as [d rn].
  cbn [Labels Message ReleaseNote fst snd]. rewrite map_map.
  destruct (github.Labels pr); reflexivity.
Qed.

Lemma fence_block_block (rn : string) : fence_block rn = block ("* " ++ rn).
Proof.
  unfold fence_block, block, openFence, closeFence. cbn [append].
  reflexivity.
Qed.

(** X7: every commit body ends with a release-note block that the
    program's own expression finds, with the content ["* "] followed by
    the release note: what the template writes can be read back by
    [releaseNoteRegexp]. *)
Theorem commit_body_ends_with_block (pr : github.PullRequest) :
  exists front,
    fst (generateCommitBody pr)
      = front ++ fence_block (snd (splitReleaseNote (github.GetBody pr))) /\
    FindStringSubmatch releaseNoteRegexp
        (fence_block (snd (splitReleaseNote (github.GetBody pr))))
      = cons (fence_block (snd (splitReleaseNote (github.GetBody pr))))
          (cons ("* " ++ snd (splitReleaseNote (github.GetBody pr))) nil).
Proof.
  rewrite generateCommitBody_eq. unfold newCommitBody.
  pose proof (split_note_no_newline (github.GetBody pr)) as Hline.
  destruct (splitReleaseNote (github.GetBody pr)) as [d rn].
  cbn [Labels Message ReleaseNote fst snd] in *.
  eexists. split.
  - rewrite <- !append_assoc. reflexivity.
  - rewrite fence_block_block. apply Find_here, release_match.
    split; [discriminate|]. split.
    + rewrite all_bytes_append, Hline. reflexivity.
    + exists "". unfold block. now rewrite append_nil_r.
Qed.

(** ** The classifier behind the wrapping of errors *)

Lemma all_bytes_impl (p q : ascii -> bool) (s : string) :
  (forall c, p c = true -> q c = true) ->
  all_bytes p s = true -> all_bytes q s = true.
Proof.
  intros Hpq. induction s as [|c s IH]; cbn [all_bytes]; [reflexivity|].
  intros H. apply andb_true_iff in H as [Hc Hs].
  now rewrite (Hpq c Hc), IH.
Qed.

Lemma isDigit_notA (c : ascii) : isDigit c = true -> notA c = true.
Proof.
  intros H. unfold notA. destruct (Ascii.eqb_spec c "A") as [->|_];
    [discriminate | reflexivity].
Qed.

Lemma Find_approval_after_prefix (prefix msg : string) :
  all_bytes notA prefix = true ->
  FindStringSubmatch needApproveRegexp (prefix ++ msg)
    = FindStringSubmatch needApproveRegexp msg.
Proof.
  intros Hp. apply Find_skip. intros p1 p2 -> Hne.
  apply no_approval_match. intros n (_ & _ & rest & Heq).
  destruct p2 as [|c p2]; [congruence|].
  cbn [append] in Heq. injection Heq as -> _.
  rewrite all_bytes_append in Hp. apply andb_true_iff in Hp as [_ Hp].
  discriminate.
Qed.

(** X8: a prefix without a capital A, such as the ones [merge] puts before
    the errors of GitHub, does not change the classification: a message
    that is classified keeps its classification, and a message that is
    returned as it is is returned with its prefix. *)
Theorem errMsg_after_prefix (prefix msg : string) :
  all_bytes notA prefix = true ->
  errMsg (Some (prefix ++ msg)) =
    if String.eqb (errMsg (Some msg)) msg then prefix ++ msg
    else errMsg (Some msg).
Proof.
  intros Hp. unfold errMsg. rewrite (Find_approval_after_prefix _ _ Hp).
  destruct (Find_inv needApproveRegexp msg)
    as [[Hn _]|(pre & t & ss & -> & Hm & -> & _)].
  - rewrite Hn. cbn [List.length Nat.eqb]. now rewrite String.eqb_refl.
  - apply approval_match_inv in Hm as (n & (_ & Hd & rest & ->) & ->).
    cbn [List.length Nat.eqb nth].
    destruct (String.eqb_spec ("Need " ++ n ++ " approving review")
                (pre ++ "At least " ++ n ++ approveTail ++ rest)) as [E|_];
      [|reflexivity].
    assert (Hl : all_bytes notA ("Need " ++ n ++ " approving review") = true).
    { rewrite !all_bytes_append.
      rewrite (all_bytes_impl isDigit notA n isDigit_notA Hd). reflexivity. }
    rewrite E, all_bytes_append in Hl. cbn [append all_bytes] in Hl.
    change (notA "A") with false in Hl. cbn [andb] in Hl.
    rewrite andb_false_r in Hl. discriminate.
Qed.

Lemma errMsg_after_prefix_witness :
  errMsg (Some ("failed to merge pull request: "
                  ++ ("PUT: 405 At least 2" ++ approveTail)))
    = "Need 2 approving review" /\
  errMsg (Some ("failed to get pull request: " ++ "404 Not Found"))
    = "failed to get pull request: 404 Not Found".
Proof.
  split.
  - apply (errMsg_after_prefix "failed to merge pull request: "
             ("PUT: 405 At least 2" ++ approveTail)).
    reflexivity.
  - apply (errMsg_after_prefix "failed to get pull request: " "404 Not Found").
    reflexivity.
Defined.

(** ** The runs of the orchestrator *)

Lemma merge_unfolded (w : collaborators) (e : env) :
  merge w (Owner e) (Repo e) (PRNumber e) (MergeMethod e) (EnableAutoMerge e)
    nil =
  match PullRequests_Get w (Owner e) (Repo e) (PRNumber e) with
  | inr err =>
      (Some ("failed to get pull request: " ++ err),
       cons (GotPullRequest (Owner e) (Repo e) (PRNumber e)) nil)
  | inl pr =>
      (match merge_answer w e pr with
       | Some err => Some ("failed to merge pull request: " ++ err)
       | None => None
       end,
       cons (GotPullRequest (Owner e) (Repo e) (PRNumber e))
         (cons (merge_request e pr) nil))
  end.
Proof.
  unfold merge, merge_answer, merge_request, bind, emit, ret, wrap.
  destruct (PullRequests_Get w (Owner e) (Repo e) (PRNumber e)) as [pr|err];
    [|reflexivity].
  unfold generateCommitBody at 1. cbn [fst].
  destruct (EnableAutoMerge e); cbn [app].
  - destruct (Command_gh_Run w _); reflexivity.
  - destruct (PullRequests_Merge w _ _ _ _ _ _); reflexivity.
Qed.

Lemma sendMsg_run (w : collaborators) (e : env) (msg : string)
    (log : list event) :
  sendMsg w (Owner e) (Repo e) (PRNumber e) msg log =
    (match Issues_CreateComment w (Owner e) (Repo e) (PRNumber e) msg with
     | Some err => Some ("failed to send message: " ++ err)
     | None => None
     end,
     (log ++ cons (CommentPosted (Owner e) (Repo e) (PRNumber e) msg) nil)%list).
Proof.
  unfold sendMsg, bind, emit, ret, wrap.
  destruct (Issues_CreateComment w _ _ _ _); reflexivity.
Qed.

Lemma main_run_of (w : collaborators) (out : outcome) (log : list event) :
  main w nil = (out, log) -> run_of w out log.
Proof.
  unfold main.
  destruct (Process w "INPUT") as [e|err] eqn:HP.
  2:{ unfold bind, emit, ret. cbn [app]. intros [= <- <-]. now constructor. }
  destruct (validateEnv e) as [err|] eqn:HV.
  { unfold bind at 1. rewrite sendMsg_run.
    destruct (Issues_CreateComment w _ _ _ _);
      unfold bind, emit, ret; cbn [app]; intros [= <- <-];
      now apply (run_refused w e err). }
  unfold bind at 1. rewrite merge_unfolded.
  destruct (PullRequests_Get w (Owner e) (Repo e) (PRNumber e))
    as [pr|err] eqn:HG.
  2:{ unfold bind at 1. rewrite sendMsg_run.
      destruct (Issues_CreateComment w _ _ _ _);
        unfold bind, emit, ret; cbn [app]; intros [= <- <-];
        now apply (run_not_fetched w e err). }
  destruct (merge_answer w e pr) as [err|] eqn:HM.
  { unfold bind at 1. rewrite sendMsg_run.
    destruct (Issues_CreateComment w _ _ _ _);
      unfold bind, emit, ret; cbn [app]; intros [= <- <-];
      now apply (run_not_merged w e pr err). }
  cbv zeta. unfold bind at 1. rewrite sendMsg_run.
  fold (success_comment e).
  destruct (Issues_CreateComment w (Owner e) (Repo e) (PRNumber e)
              (success_comment e)) eqn:HC;
    unfold bind, emit, ret; cbn [app]; intros [= <- <-];
    apply (run_merged w e pr); auto; try (split; congruence); congruence.
Qed.

Lemma main_run (w : collaborators) :
  run_of w (fst (main w nil)) (snd (main w nil)).
Proof. apply main_run_of, surjective_pairing. Qed.

(** X9: unless the inputs are loaded and pass the gate, the program makes
    no call that fetches the pull request or asks for a merge. *)
Theorem main_no_call_before_gate (w : collaborators) :
  (forall e, Process w "INPUT" = inl e -> validateEnv e <> None) ->
  filter (fun ev => is_fetch ev || is_merge_request ev) (snd (main w nil))
    = nil.
Proof.
  intros Hgate.
  destruct (main_run w) as [err HP|e err out p HP HV|e err out p HP HV _
                           |e pr err out p HP HV _ _|e pr out p HP HV _ _ _ _];
    try (now destruct (Hgate e HP)); reflexivity.
Qed.

Lemma main_no_call_before_gate_witness :
  filter (fun ev => is_fetch ev || is_merge_request ev)
    (snd (main (calm_world (env_of "/merge" "eve" (cons "bob" nil))) nil))
    = nil.
Proof.
  apply (main_no_call_before_gate
           (calm_world (env_of "/merge" "eve" (cons "bob" nil)))).
  intros e [= <-]. vm_compute. discriminate.
Defined.

(** X10: in every run at most one merge is asked for, and it is the
    request built from the pull request that was fetched, sent to the
    [gh] command when auto-merge is enabled and to the API otherwise. *)
Theorem main_one_merge_request (w : collaborators) :
  List.length (filter is_merge_request (snd (main w nil))) <= 1 /\
  forall e ev,
    Process w "INPUT" = inl e -> In ev (snd (main w nil)) ->
    is_merge_request ev = true ->
    exists pr,
      PullRequests_Get w (Owner e) (Repo e) (PRNumber e) = inl pr /\
      ev = merge_request e pr.
Proof.
  destruct (main_run w) as [err HP|e err out p HP HV|e err out p HP HV HG
                           |e pr err out p HP HV HG _|e pr out p HP HV HG _ _ _].
  1-3: split; [cbn; lia|];
       intros e' ev _ Hin Hm; cbn [In] in Hin;
       repeat (destruct Hin as [<-|Hin]; [discriminate|]); destruct Hin.
  all: split;
    [ cbn [filter is_fetch is_merge_request];
      unfold merge_request; destruct (EnableAutoMerge e); cbn; lia |];
    intros e' ev HP' Hin Hm;
    assert (e' = e) by congruence; subst e';
    cbn [In] in Hin;
    destruct Hin as [<-|[<-|[<-|[<-|[]]]]]; try discriminate;
    now exists pr.
Qed.

Lemma main_one_merge_request_witness :
  exists pr,
    PullRequests_Get (calm_world (env_of "/merge" "bob" nil)) "octo" "demo" 7
      = inl pr /\
    MergeCalled "octo" "demo" 7
      (String nl "```release-note" ++ String nl "* NONE" ++ String nl "```")
      "Fix crash (#7)" "merge"
    = merge_request (env_of "/merge" "bob" nil) pr.
Proof.
  destruct (main_one_merge_request (calm_world (env_of "/merge" "bob" nil)))
    as [_ H].
  apply (H (env_of "/merge" "bob" nil)).
  - reflexivity.
  - vm_compute. right. left. reflexivity.
  - reflexivity.
Defined.

(** X11: the program returns normally exactly when the inputs are loaded
    and pass the gate, the pull request is fetched, the merge request is
    accepted and the success comment is delivered; in every other case it
    panics. *)
Theorem main_returns_iff (w : collaborators) :
  fst (main w nil) = Returned <->
  exists e pr,
    Process w "INPUT" = inl e /\ validateEnv e = None /\
    PullRequests_Get w (Owner e) (Repo e) (PRNumber e) = inl pr /\
    merge_answer w e pr = None /\
    Issues_CreateComment w (Owner e) (Repo e) (PRNumber e) (success_comment e)
      = None.
Proof.
  destruct (main_run w) as [err HP|e err out p HP HV|e err out p HP HV HG
                           |e pr err out p HP HV HG HM
                           |e pr out p HP HV HG HM Hout _].
  1-4: split; [discriminate|];
       intros (e' & pr' & HP' & HV' & HG' & HM' & _);
       try congruence;
       assert (e' = e) by congruence; subst e'; try congruence;
       assert (pr' = pr) by congruence; subst pr'; congruence.
  rewrite Hout. split.
  - intros HC. now exists e, pr.
  - intros (e' & pr' & HP' & _ & _ & _ & HC).
    assert (e' = e) by congruence. now subst e'.
Qed.

Lemma main_returns_iff_witness :
  fst (main (calm_world (env_of "/merge" "bob" (cons "bob" nil))) nil)
    = Returned.
Proof.
  apply (main_returns_iff (calm_world (env_of "/merge" "bob" (cons "bob" nil)))).
  exists (env_of "/merge" "bob" (cons "bob" nil)), (pr_of "" nil).
  repeat split.
Defined.

(** X12: a run that returns normally made exactly these calls, in this
    order: the fetch of the pull request, one merge request carrying the
    subject and the body made from the pull request that was fetched, and
    the comment ["Merged PR #<number> successfully!"], which it prints
    last. *)
Theorem main_success_log (w : collaborators) :
  fst (main w nil) = Returned ->
  exists e pr,
    Process w "INPUT" = inl e /\
    PullRequests_Get w (Owner e) (Repo e) (PRNumber e) = inl pr /\
    snd (main w nil) =
      cons (GotPullRequest (Owner e) (Repo e) (PRNumber e))
        (cons (merge_request e pr)
           (cons (CommentPosted (Owner e) (Repo e) (PRNumber e)
                    ("Merged PR #" ++ Itoa (PRNumber e) ++ " successfully!"))
              (cons (Printed
                       ("Merged PR #" ++ Itoa (PRNumber e) ++ " successfully!"))
                 nil))).
Proof.
  destruct (main_run w) as [err HP|e err out p HP HV|e err out p HP HV HG
                           |e pr err out p HP HV HG HM
                           |e pr out p HP HV HG HM _ Hp]; try discriminate.
  intros Hout. exists e, pr. rewrite (Hp Hout). now repeat split.
Qed.

Lemma main_success_log_witness :
  exists e pr,
    Process (calm_world (env_of "/merge" "bob" nil)) "INPUT" = inl e /\
    PullRequests_Get (calm_world (env_of "/merge" "bob" nil))
      (Owner e) (Repo e) (PRNumber e) = inl pr /\
    snd (main (calm_world (env_of "/merge" "bob" nil)) nil) =
      cons (GotPullRequest (Owner e) (Repo e) (PRNumber e))
        (cons (merge_request e pr)
           (cons (CommentPosted (Owner e) (Repo e) (PRNumber e)
                    ("Merged PR #" ++ Itoa (PRNumber e) ++ " successfully!"))
              (cons (Printed
                       ("Merged PR #" ++ Itoa (PRNumber e) ++ " successfully!"))
                 nil))).
Proof.
  apply (main_success_log (calm_world (env_of "/merge" "bob" nil))).
  reflexivity.
Defined.

(** X13: when the merge request is refused with an error in which the
    approval message for N reviews occurs, the one comment of the run is
    ["Need N approving review"]: the prefix that [merge] puts before the
    error does not hide the message from the classifier. *)
Theorem main_reports_missing_reviews (w : collaborators) (e : env)
    (pr : github.PullRequest) (pre s n : string) :
  Process w "INPUT" = inl e -> validateEnv e = None ->
  PullRequests_Get w (Owner e) (Repo e) (PRNumber e) = inl pr ->
  merge_answer w e pr = Some (pre ++ s) ->
  approval_here s n -> none_before an_approval pre s ->
  comments (snd (main w nil)) = cons ("Need " ++ n ++ " approving review") nil.
Proof.
  intros HP HV HG HM Hs Hn.
  destruct (main_run w) as [err HP'|e' err out p HP' HV'|e' err out p HP' HV' HG'
                           |e' pr' err out p HP' HV' HG' HM'
                           |e' pr' out p HP' HV' HG' HM' _ _];
    try congruence;
    assert (e' = e) by congruence; subst e'; try congruence;
    assert (pr' = pr) by congruence; subst pr'; try congruence.
  assert (err = pre ++ s) by congruence. subst err.
  unfold merge_request. destruct (EnableAutoMerge e); cbn [comments];
    f_equal; unfold errMsg;
    rewrite (Find_approval_after_prefix "failed to merge pull request: "
               (pre ++ s) eq_refl);
    now rewrite (Find_approval_first pre s n Hs Hn).
Qed.

Lemma main_reports_missing_reviews_witness :
  comments
    (snd (main (refusing_world (env_of "/merge" "bob" nil)
                  ("PUT /merge: 405 " ++ "At least 1" ++ approveTail ++ ". []"))
            nil))
  = cons "Need 1 approving review" nil.
Proof.
  apply (main_reports_missing_reviews
           (refusing_world (env_of "/merge" "bob" nil)
              ("PUT /merge: 405 " ++ "At least 1" ++ approveTail ++ ". []"))
           (env_of "/merge" "bob" nil) (pr_of "" nil)
           "PUT /merge: 405 " ("At least 1" ++ approveTail ++ ". []") "1").
  - reflexivity.
  - reflexivity.
  - reflexivity.
  - reflexivity.
  - split; [discriminate|]. split; [reflexivity|]. now exists ". []".
  - apply none_before_approval. reflexivity.
Defined.

(** X14: when the pull request cannot be fetched, no merge is asked for;
    the program panics after one comment, which is the classified text of
    ["failed to get pull request: "] followed by the error. *)
Theorem main_fetch_failure (w : collaborators) (e : env) (err : string) :
  Process w "INPUT" = inl e -> validateEnv e = None ->
  PullRequests_Get w (Owner e) (Repo e) (PRNumber e) = inr err ->
  filter is_merge_request (snd (main w nil)) = nil /\
  comments (snd (main w nil))
    = cons (errMsg (Some ("failed to get pull request: " ++ err))) nil /\
  exists msg, fst (main w nil) = Panicked msg.
Proof.
  intros HP HV HG.
  destruct (main_run w) as [err' HP'|e' err' out p HP' HV'|e' err' out p HP' HV' HG'
                           |e' pr' err' out p HP' HV' HG' HM'
                           |e' pr' out p HP' HV' HG' HM' _ _];
    try congruence;
    assert (e' = e) by congruence; subst e'; try congruence.
  assert (err' = err) by congruence. subst err'.
  split; [reflexivity|]. split; [reflexivity|]. now exists out.
Qed.

Lemma main_fetch_failure_witness :
  filter is_merge_request
    (snd (main (unreachable_world (env_of "/merge" "bob" nil) "404 Not Found")
            nil)) = nil /\
  comments
    (snd (main (unreachable_world (env_of "/merge" "bob" nil) "404 Not Found")
            nil))
    = cons (errMsg (Some ("failed to get pull request: " ++ "404 Not Found")))
        nil /\
  exists msg,
    fst (main (unreachable_world (env_of "/merge" "bob" nil) "404 Not Found")
           nil) = Panicked msg.
Proof.
  apply (main_fetch_failure
           (unreachable_world (env_of "/merge" "bob" nil) "404 Not Found")
           (env_of "/merge" "bob" nil) "404 Not Found"); reflexivity.
Defined.

(** X15: in every run whose inputs were loaded, failed or not, exactly one
    comment is posted; it goes to the pull request of the inputs, it comes
    after every other call, and only the final print follows it. *)
Theorem main_comment_last (w : collaborators) (e : env) :
  Process w "INPUT" = inl e ->
  exists before msg p,
    snd (main w nil)
      = (before
           ++ cons (CommentPosted (Owner e) (Repo e) (PRNumber e) msg)
                (cons (Printed p) nil))%list /\
    comments before = nil.
Proof.
  intros HP.
  destruct (main_run w) as [err' HP'|e' err' out p HP' HV'|e' err' out p HP' HV' HG'
                           |e' pr' err' out p HP' HV' HG' HM'
                           |e' pr' out p HP' HV' HG' HM' _ _];
    try congruence;
    assert (e' = e) by congruence; subst e'.
  - now exists nil, (errMsg (Some err')), p.
  - eexists (cons _ nil), _, p. split; reflexivity.
  - eexists (cons _ (cons (merge_request e pr') nil)), _, p.
    split; [reflexivity|].
    unfold merge_request. now destruct (EnableAutoMerge e).
  - eexists (cons _ (cons (merge_request e pr') nil)), _, p.
    split; [reflexivity|].
    unfold merge_request. now destruct (EnableAutoMerge e).
Qed.

Lemma main_comment_last_witness :
  exists before msg p,
    snd (main (calm_world (env_of "/merge" "bob" nil)) nil)
      = (before ++ cons (CommentPosted "octo" "demo" 7 msg)
                     (cons (Printed p) nil))%list /\
    comments before = nil.
Proof.
  apply (main_comment_last (calm_world (env_of "/merge" "bob" nil))
           (env_of "/merge" "bob" nil)).
  reflexivity.
Defined.

(** ** The release note is the trimmed content *)

Lemma made_of_app (pats : list string) (a b : string) :
  made_of pats a -> made_of pats b -> made_of pats (a ++ b).
Proof.
  induction 1 as [|p s Hp _ IH]; intros Hb; [exact Hb|].
  rewrite append_assoc. apply made_of_more; auto.
Qed.

Lemma made_of_one (pats : list string) (p : string) :
  In p pats -> made_of pats p.
Proof.
  intros H. rewrite <- (append_nil_r p).
  apply made_of_more; [assumption | constructor].
Qed.

Lemma made_of_rev (pats : list string) (x : string) :
  made_of (map rev pats) x -> made_of pats (rev x).
Proof.
  induction 1 as [|q s Hq _ IH]; [constructor|].
  apply in_map_iff in Hq as (p & <- & Hp).
  rewrite rev_append, rev_involutive.
  apply made_of_app; [assumption | now apply made_of_one].
Qed.

Lemma strip_one_made (pats : list string) (s s' : string) :
  strip_one pats s = Some s' -> exists p, In p pats /\ s = p ++ s'.
Proof.
  induction pats as [|q pats IH]; cbn [strip_one]; [discriminate|].
  destruct (HasPrefix s q) eqn:E.
  - intros [= <-]. exists q. split; [now left | now apply HasPrefix_split].
  - intros H. destruct (IH H) as (p & Hp & Hs). exists p. split; [now right|].
    assumption.
Qed.

Lemma strip_all_made (pats : list string) (fuel : nat) (s : string) :
  exists x, s = x ++ strip_all pats fuel s /\ made_of pats x.
Proof.
  revert s; induction fuel as [|fuel IH]; intros s; cbn [strip_all].
  - exists "". split; [reflexivity | constructor].
  - destruct (strip_one pats s) as [s'|] eqn:E.
    + apply strip_one_made in E as (p & Hp & ->).
      destruct (IH s') as (y & Hy & Hm). exists (p ++ y). split.
      * rewrite append_assoc. now rewrite <- Hy.
      * now apply made_of_more.
    + exists "". split; [reflexivity | constructor].
Qed.

(** What [strings.TrimSpace] returns is its argument without a run of
    white-space runes at each end. *)
Lemma TrimSpace_cut (s : string) :
  exists lead trail,
    s = lead ++ TrimSpace s ++ trail /\
    made_of spaceRunes lead /\ made_of spaceRunes trail.
Proof.
  unfold TrimSpace, TrimRightSpace.
  destruct (strip_all_made spaceRunes (String.length s) s)
    as (lead & Hl & Hlead).
  fold (TrimLeftSpace s) in Hl. set (l := TrimLeftSpace s) in *.
  destruct (strip_all_made (map rev spaceRunes) (String.length l) (rev l))
    as (x & Hx & Hxm).
  set (t := strip_all (map rev spaceRunes) (String.length l) (rev l)) in *.
  exists lead, (rev x). split; [|split].
  - rewrite <- rev_append, <- Hx, rev_involutive. exact Hl.
  - assumption.
  - now apply made_of_rev.
Qed.

(** C8: the release note returned by [splitReleaseNote] is never empty, and
    it neither starts nor ends with a white-space rune: it is the text
    ["NONE"], or it is what is left of the content of the block that was
    found once the white-space runes at its two ends are cut off, which
    is not empty. *)
Theorem splitReleaseNote_note_not_empty (body : string) :
  snd (splitReleaseNote body) <> "" /\
  leading_space (snd (splitReleaseNote body)) = false /\
  trailing_space (snd (splitReleaseNote body)) = false /\
  (snd (splitReleaseNote body) = "NONE" \/
   exists pre s cap lead trail,
     body = pre ++ s /\ block_here s cap /\ none_before a_block pre s /\
     snd (splitReleaseNote body) = TrimSpace cap /\
     cap = lead ++ snd (splitReleaseNote body) ++ trail /\
     made_of spaceRunes lead /\ made_of spaceRunes trail).
Proof.
  destruct (Find_release_cases body)
    as [[Hn _]|(pre & s & cap & Heq & Hb & Hnb & Hf)].
  - rewrite (split_not_found body Hn).
    split; [discriminate|]. split; [reflexivity|]. split; [reflexivity|].
    now left.
  - rewrite (split_found body _ _ Hf).
    destruct (String.eqb_spec (TrimSpace cap) "") as [He|Hne]; cbn [snd].
    + split; [discriminate|]. split; [reflexivity|]. split; [reflexivity|].
      now left.
    + destruct (TrimSpace_trimmed cap) as [Hlead Htrail].
      destruct (TrimSpace_cut cap) as (lead & trail & Hcut & Hl & Ht).
      split; [assumption|]. split; [assumption|]. split; [assumption|].
      right. exists pre, s, cap, lead, trail. repeat split; try assumption.
      all: destruct Hb as (H1 & H2 & H3); assumption.
Qed.

Lemma splitReleaseNote_note_not_empty_witness :
  snd (splitReleaseNote ("notes: " ++ block "  fix it  ")) <> "" /\
  leading_space (snd (splitReleaseNote ("notes: " ++ block "  fix it  ")))
    = false /\
  trailing_space (snd (splitReleaseNote ("notes: " ++ block "  fix it  ")))
    = false /\
  snd (splitReleaseNote (block "  ")) <> "".
Proof.
  destruct (splitReleaseNote_note_not_empty ("notes: " ++ block "  fix it  "))
    as (H1 & H2 & H3 & _).
  destruct (splitReleaseNote_note_not_empty (block "  ")) as (H4 & _).
  repeat split; assumption.
Defined.

Example note_is_trimmed :
  splitReleaseNote ("notes: " ++ block "  fix it  ") = ("notes: ", "fix it") /\
  splitReleaseNote (block "  ") = (block "  ", "NONE").
Proof. split; reflexivity. Qed.
